(** * ijroi: the ImageJ ROI decoder [read_roi] of [ijroi/ijroi.py]

    A shallow embedding of [read_roi] and of the readers nested in it
    ([get8], [get16], [get32], [getfloat]), followed by the properties of
    the decoder.

    Modelling conventions.
    - [fileobj] is a binary file object that is only ever read forwards
      ([read(k)] and [seek(k, 1)] with [k >= 0]); it is modelled by the
      list of bytes lying between its position and the end of the data.
      Reading takes a prefix of that list, seeking drops one.
    - Python integers are unbounded: they are [Z].  NumPy [int16]/[int32]
      values are [Z] with the two's-complement wrap-around written out
      ([int16], [int32]); a Python integer stored into such an array
      wraps (the NumPy 1.x conversion the module was written against).
    - A NumPy [float32] is a [spec_float] taken at precision 24 and
      maximal exponent 128 (IEEE-754 binary32, NaN payloads forgotten);
      [+] on them is [SFadd 24 128].
    - A raised exception is an [Err] result carrying the exception. *)

From Stdlib Require Import ZArith String List Lia Bool.
From Stdlib Require Import Strings.Byte.
From Stdlib Require Import Floats.SpecFloat.
Import ListNotations.

Local Open Scope Z_scope.

(** ** Exceptions and results *)

(** The exceptions [read_roi] can raise, one constructor per [raise]
    statement of the source, plus the two that the interpreter raises
    itself in the composite branch. *)
Inductive error : Type :=
| UnexpectedEof                       (* IOError('readroi: Unexpected EOF') *)
| BadMagic                            (* ValueError('Magic number not found') *)
| UnsupportedRoiType (roi_type : Z)   (* NotImplementedError('... ROI type %s not supported') *)
| UnsupportedSubtype (subtype : Z)    (* NotImplementedError('... ROI subtype %s not supported') *)
| NameError (name : string)           (* NameError: name ... is not defined *)
| BufferTooSmall                      (* ValueError from np.frombuffer *)
| KeyError.                           (* rc[_type] on a tag missing from rc *)

Inductive result (A : Type) : Type :=
| Ok (a : A)
| Err (e : error).
Arguments Ok {A} a.
Arguments Err {A} e.

(** ** The file object and the reader monad *)

Definition fileobj : Type := list byte.

(** A computation that reads from the file object and may raise. *)
Definition reader (A : Type) : Type := fileobj -> result (A * fileobj).

Definition ret {A} (a : A) : reader A := fun f => Ok (a, f).

Definition raise {A} (e : error) : reader A := fun _ => Err e.

Definition bind {A B} (m : reader A) (k : A -> reader B) : reader B :=
  fun f => match m f with
           | Ok (a, f') => k a f'
           | Err e => Err e
           end.

Declare Scope reader_scope.
Delimit Scope reader_scope with reader.
Notation "x <- m ;; k" := (bind m (fun x => k))
  (at level 61, m at next level, right associativity) : reader_scope.
Notation "m ;;; k" := (bind m (fun _ => k))
  (at level 61, right associativity) : reader_scope.
Local Open Scope reader_scope.

(** [fileobj.read(k)]: up to [k] bytes, fewer at the end of the data. *)
Definition read (k : nat) : reader (list byte) :=
  fun f => Ok (firstn k f, skipn k f).

(** [fileobj.seek(k, 1)] for [k >= 0]: the position moves on, also past
    the end of the data; nothing is read and nothing fails. *)
Definition seek_cur (k : nat) : reader unit :=
  fun f => Ok (tt, skipn k f).

(** Evaluating a name that no scope binds. *)
Definition unbound_name {A} (name : string) : reader A :=
  raise (NameError name).

(** [[m() for i in range(n)]] *)
Fixpoint replicateM {A} (n : nat) (m : reader A) : reader (list A) :=
  match n with
  | O => ret []
  | S n' => x <- m ;; xs <- replicateM n' m ;; ret (x :: xs)
  end.

(** ** Machine integers and floats *)

(** [ord] of a one-byte string. *)
Definition ord (b : byte) : Z := Z.of_N (Byte.to_N b).

(** The byte whose [ord] is [n] (for writing inputs down). *)
Definition chr (n : Z) : byte :=
  match Byte.of_N (Z.to_N n) with Some b => b | None => x00 end.

(** Conversion to [np.int16] and [np.int32]. *)
Definition int16 (z : Z) : Z := (z + 32768) mod 65536 - 32768.
Definition int32 (z : Z) : Z := (z + 2147483648) mod 4294967296 - 2147483648.

Definition float32 : Type := spec_float.

(** [v.view(np.float32)] on an [np.int32]: the same 32 bits read as an
    IEEE-754 binary32 (sign, 8 exponent bits, 23 fraction bits). *)
Definition view_float32 (v : Z) : float32 :=
  let w := v mod 4294967296 in
  let s := Z.testbit w 31 in
  let e := Z.land (Z.shiftr w 23) 255 in
  let m := Z.land w 8388607 in
  if e =? 0 then
    match m with
    | Zpos p => S754_finite s p (-149)
    | _ => S754_zero s
    end
  else if e =? 255 then
    (if m =? 0 then S754_infinity s else S754_nan)
  else
    match m + 8388608 with
    | Zpos p => S754_finite s p (e - 150)
    | _ => S754_nan
    end.

(** [a + b] on [np.float32] scalars. *)
Definition float32_add (a b : float32) : float32 := SFadd 24 128 a b.

(** ** The nested readers of [read_roi] *)

Definition get8 : reader Z :=
  s <- read 1 ;;
  match s with
  | [] => raise UnexpectedEof
  | b :: _ => ret (ord b)
  end.

Definition get16 : reader Z :=
  b0 <- get8 ;;
  b1 <- get8 ;;
  ret (Z.lor (Z.shiftl b0 8) b1).

Definition get32 : reader Z :=
  s0 <- get16 ;;
  s1 <- get16 ;;
  ret (Z.lor (Z.shiftl s0 16) s1).

Definition getfloat : reader float32 :=
  w <- get32 ;;
  let v := int32 w in
  ret (view_float32 v).

(** ** Constants *)

Definition SUB_PIXEL_RESOLUTION : Z := 128.

Module RoiType.
Definition POLYGON : Z := 0.
Definition RECT : Z := 1.
Definition OVAL : Z := 2.
Definition LINE : Z := 3.
Definition FREELINE : Z := 4.
Definition POLYLINE : Z := 5.
Definition NOROI : Z := 6.
Definition FREEHAND : Z := 7.
Definition TRACED : Z := 8.
Definition ANGLE : Z := 9.
Definition POINT : Z := 10.
End RoiType.

(** [b'Iout'] *)
Definition Iout : list byte := [x49; x6f; x75; x74].

Fixpoint bytes_eqb (a b : list byte) : bool :=
  match a, b with
  | [], [] => true
  | x :: a', y :: b' => Byte.eqb x y && bytes_eqb a' b'
  | _, _ => false
  end.

(** ** The header *)

(** The local variables that the header section of [read_roi] assigns,
    in the order in which it reads them. *)
Record RoiHeader : Type := mkRoiHeader {
  version : Z;
  roi_type : Z;
  top : Z;
  left : Z;
  bottom : Z;
  right : Z;
  n_coordinates : Z;
  x1 : float32;
  y1 : float32;
  x2 : float32;
  y2 : float32;
  stroke_width : Z;
  shape_roi_size : Z;
  stroke_color : Z;
  fill_color : Z;
  subtype : Z;
  options : Z;
  arrow_style : Z;
  arrow_head_size : Z;
  rect_arc_size : Z;
  position : Z;
  header2offset : Z
}.

(** Lines 71-98: the fields that follow the magic number. *)
Definition read_fields : reader RoiHeader :=
  version <- get16 ;;
  roi_type <- get8 ;;
  get8 ;;;
  top <- get16 ;;
  left <- get16 ;;
  bottom <- get16 ;;
  right <- get16 ;;
  n_coordinates <- get16 ;;
  x1 <- getfloat ;;
  y1 <- getfloat ;;
  x2 <- getfloat ;;
  y2 <- getfloat ;;
  stroke_width <- get16 ;;
  shape_roi_size <- get32 ;;
  stroke_color <- get32 ;;
  fill_color <- get32 ;;
  subtype <- get16 ;;
  options <- get16 ;;
  arrow_style <- get8 ;;
  arrow_head_size <- get8 ;;
  rect_arc_size <- get16 ;;
  position <- get32 ;;
  header2offset <- get32 ;;
  ret (mkRoiHeader version roi_type top left bottom right n_coordinates
         x1 y1 x2 y2 stroke_width shape_roi_size stroke_color fill_color
         subtype options arrow_style arrow_head_size rect_arc_size
         position header2offset).

(** Lines 68-98: the magic number, then the fields. *)
Definition read_header : reader RoiHeader :=
  magic <- read 4 ;;
  if negb (bytes_eqb magic Iout) then raise BadMagic else
  read_fields.

(** Line 104. *)
Definition subPixelResolution (h : RoiHeader) : bool :=
  negb (Z.land (options h) SUB_PIXEL_RESOLUTION =? 0) && (222 <=? version h).

(** Line 108: the types that [read_roi] accepts. *)
Definition supported_types : list Z :=
  [RoiType.FREEHAND; RoiType.TRACED; RoiType.POLYGON; RoiType.RECT; RoiType.POINT].

Definition supported (t : Z) : bool := existsb (Z.eqb t) supported_types.

(** ** The composite branch (lines 115-145) *)

(** [np.frombuffer(coords_bytes, dtype='>f4', count=count)] *)
Fixpoint floats_be (count : nat) (bs : list byte) : list float32 :=
  match count, bs with
  | S c, b0 :: b1 :: b2 :: b3 :: bs' =>
      let s0 := Z.lor (Z.shiftl (ord b0) 8) (ord b1) in
      let s1 := Z.lor (Z.shiftl (ord b2) 8) (ord b3) in
      view_float32 (int32 (Z.lor (Z.shiftl s0 16) s1)) :: floats_be c bs'
  | _, _ => []
  end.

Definition frombuffer (coords_bytes : list byte) (count : nat) : reader (list float32) :=
  if (length coords_bytes <? 4 * count)%nat then raise BufferTooSmall
  else ret (floats_be count coords_bytes).

(** The Python integer [k] as a [float32] (exact for the keys of [rc]). *)
Definition float32_of_Z (k : Z) : float32 := binary_normalize 24 128 k 0 false.

(** [rc = {4:1, 0:3, 1:3, 2:5, 3:7}] *)
Definition rc : list (Z * nat) :=
  [(4, 1%nat); (0, 3%nat); (1, 3%nat); (2, 5%nat); (3, 7%nat)].

(** [rc[_type]] for a [float32] key: the entry whose key compares equal. *)
Definition rc_lookup (_type : float32) : option nat :=
  option_map snd
    (find (fun kv => SFeqb _type (float32_of_Z (fst kv))) rc).

(** [buffer[lo:hi]], clamped to the buffer as Python slices are. *)
Definition slice {A} (buffer : list A) (lo hi : nat) : list A :=
  firstn (hi - lo) (skipn lo buffer).

(** One array [np.r_[these_points]]: its rows. *)
Definition segment : Type := list (list float32).

(** The [while i < buffer.size] loop.  Every iteration adds
    [read_len >= 1] to [i], so [length buffer - i] iterations are enough;
    [None] is the loop cut short by [fuel]. *)
Fixpoint walk (fuel : nat) (buffer : list float32) (i : nat)
    (these_points : list (list float32)) (segments : list segment)
    : option (result (list segment)) :=
  if (i <? length buffer)%nat then
    match fuel with
    | O => None
    | S fuel' =>
        let _type := nth i buffer S754_nan in
        match rc_lookup _type with
        | None => Some (Err KeyError)
        | Some read_len =>
            let seg := slice buffer (i + 1) (i + read_len) in
            if (length seg =? 0)%nat then
              walk fuel' buffer (i + read_len) [] (segments ++ [these_points])
            else
              walk fuel' buffer (i + read_len) (these_points ++ [rev seg]) segments
        end
    end
  else Some (Ok segments).

(** Lines 119-145.  The last case is never taken ([walk_terminates]). *)
Definition composite_segments (buffer : list float32) : reader (list segment) :=
  match walk (length buffer) buffer 0 [] [] with
  | Some (Ok segments) => ret segments
  | Some (Err e) => raise e
  | None => raise KeyError
  end.

(** ** [read_roi] *)

(** What [read_roi] returns: an [n x 2] array of [int16], an [n x 2]
    array of [float32] (rows are [(row, column)]), or the list of arrays
    of the composite branch. *)
Inductive geometry : Type :=
| IntPoints (points : list (Z * Z))
| FloatPoints (points : list (float32 * float32))
| Segments (segments : list segment).

(** Lines 104-173: everything after the header.  The two arrays of the
    point-list branch have different element types, so the final
    [if subPixelResolution == 0] (lines 169-171) is applied where the
    [int16] array is built. *)
Definition read_shape (h : RoiHeader) : reader geometry :=
  let subPixelResolution := subPixelResolution h in
  if negb (supported (roi_type h)) then raise (UnsupportedRoiType (roi_type h)) else
  if negb (subtype h =? 0) then raise (UnsupportedSubtype (subtype h)) else
  if 0 <? shape_roi_size h then
    coords_bytes <- unbound_name "file_obj"%string ;;
    buffer <- frombuffer coords_bytes (Z.to_nat (shape_roi_size h)) ;;
    segments <- composite_segments buffer ;;
    ret (Segments segments)
  else
  if roi_type h =? RoiType.RECT then
    if subPixelResolution then
      ret (FloatPoints
             [(y1 h, x1 h);
              (y1 h, float32_add (x1 h) (x2 h));
              (float32_add (y1 h) (y2 h), float32_add (x1 h) (x2 h));
              (float32_add (y1 h) (y2 h), x1 h)])
    else
      ret (IntPoints
             [(int16 (top h), int16 (left h));
              (int16 (top h), int16 (right h));
              (int16 (bottom h), int16 (right h));
              (int16 (bottom h), int16 (left h))])
  else
  let n := Z.to_nat (n_coordinates h) in
  if subPixelResolution then
    seek_cur (4 * n) ;;;
    column1 <- replicateM n getfloat ;;
    column0 <- replicateM n getfloat ;;
    ret (FloatPoints (combine column0 column1))
  else
    xs <- replicateM n get16 ;;
    ys <- replicateM n get16 ;;
    let column1 := map int16 xs in
    let column0 := map int16 ys in
    let column1 := map (fun v => int16 (v + left h)) column1 in
    let column0 := map (fun v => int16 (v + top h)) column0 in
    ret (IntPoints (combine column0 column1)).

Definition read_roi (f : fileobj) : result geometry :=
  match (h <- read_header ;; read_shape h) f with
  | Ok (points, _) => Ok points
  | Err e => Err e
  end.

(** ** Wire positions

    The value that the header readers find at a byte offset of the
    record, written directly on the bytes. *)

Definition byte_at (d : list byte) (off : nat) : Z := ord (nth off d x00).

Definition u16_at (d : list byte) (off : nat) : Z :=
  Z.lor (Z.shiftl (byte_at d off) 8) (byte_at d (off + 1)).

Definition u32_at (d : list byte) (off : nat) : Z :=
  Z.lor (Z.shiftl (u16_at d off) 16) (u16_at d (off + 2)).

Definition f32_at (d : list byte) (off : nat) : float32 :=
  view_float32 (int32 (u32_at d off)).

(** The header as the offset table of the format lays it out. *)
Definition header_at (d : list byte) : RoiHeader :=
  {| version := u16_at d 4;
     roi_type := byte_at d 6;
     top := u16_at d 8;
     left := u16_at d 10;
     bottom := u16_at d 12;
     right := u16_at d 14;
     n_coordinates := u16_at d 16;
     x1 := f32_at d 18;
     y1 := f32_at d 22;
     x2 := f32_at d 26;
     y2 := f32_at d 30;
     stroke_width := u16_at d 34;
     shape_roi_size := u32_at d 36;
     stroke_color := u32_at d 40;
     fill_color := u32_at d 44;
     subtype := u16_at d 48;
     options := u16_at d 50;
     arrow_style := byte_at d 52;
     arrow_head_size := byte_at d 53;
     rect_arc_size := u16_at d 54;
     position := u32_at d 56;
     header2offset := u32_at d 60 |}.

(** A record that starts with the magic number and holds the 64 bytes of
    the header. *)
Definition full_header (d : list byte) : Prop :=
  firstn 4 d = Iout /\ (64 <= length d)%nat.

(** ** Notions used in the statements *)

(** [fixed_width n m val]: [m] raises [UnexpectedEof] when fewer than [n]
    bytes are left, and otherwise consumes exactly [n] bytes and returns
    [val] of what was left. *)
Definition fixed_width {A} (n : nat) (m : reader A) (val : fileobj -> A) : Prop :=
  forall f, m f = if (length f <? n)%nat then Err UnexpectedEof
                  else Ok (val f, skipn n f).

(** The result of [read_roi], from the result of the shape section. *)
Definition returned (r : result (geometry * fileobj)) : result geometry :=
  match r with
  | Ok (points, _) => Ok points
  | Err e => Err e
  end.

(** The guards that lead to the rectangle and point-list branches of
    [read_shape]. *)
Record accepted (h : RoiHeader) : Prop := {
  accepted_type : In (roi_type h) supported_types;
  accepted_subtype : subtype h = 0;
  accepted_not_composite : shape_roi_size h = 0
}.

(** The record [d] with the [length gap] bytes that follow its header
    replaced by [gap]. *)
Definition with_gap (d gap : list byte) : list byte :=
  firstn 64 d ++ gap ++ skipn (64 + length gap) d.

(** The header [h] with other options. *)
Definition with_options (h : RoiHeader) (o : Z) : RoiHeader :=
  {| version := version h; roi_type := roi_type h;
     top := top h; left := left h; bottom := bottom h; right := right h;
     n_coordinates := n_coordinates h;
     x1 := x1 h; y1 := y1 h; x2 := x2 h; y2 := y2 h;
     stroke_width := stroke_width h; shape_roi_size := shape_roi_size h;
     stroke_color := stroke_color h; fill_color := fill_color h;
     subtype := subtype h; options := o;
     arrow_style := arrow_style h; arrow_head_size := arrow_head_size h;
     rect_arc_size := rect_arc_size h; position := position h;
     header2offset := header2offset h |}.

(** A straight-line path of the composite data: per point one opcode
    float, [0] (move to) or [1] (line to), and the pair [x, y]; then the
    opcode [4]. *)
Definition path_point : Type := Z * float32 * float32.

Definition encode_point (p : path_point) : list float32 :=
  let '(op, x, y) := p in [float32_of_Z op; x; y].

Definition encode_path (pts : list path_point) : list float32 :=
  flat_map encode_point pts ++ [float32_of_Z 4].

Definition line_opcode (p : path_point) : Prop :=
  fst (fst p) = 0 \/ fst (fst p) = 1.

(** The rows expected for a path: one [[y; x]] per point. *)
Definition path_rows (pts : list path_point) : segment :=
  map (fun p : path_point => let '(_, x, y) := p in [y; x]) pts.

(** The iterations that the loop spends on a list of paths. *)
Definition path_steps (paths : list (list path_point)) : nat :=
  fold_right (fun pts k => (length pts + 1 + k)%nat) 0%nat paths.

(** ** Sample records *)

Definition bytes (l : list Z) : list byte := map chr l.

Definition be16 (v : Z) : list Z := [v / 256; v mod 256].
Definition be32 (v : Z) : list Z := be16 (v / 65536) ++ be16 (v mod 65536).

(** A 64-byte header with the given version, type, bounds, count, float
    words, composite size, subtype and options; the other fields are 0. *)
Definition sample_header (version roi_type top left bottom right n
    x1 y1 x2 y2 shape_roi_size subtype options : Z) : list byte :=
  Iout ++ bytes (be16 version ++ [roi_type; 0] ++ be16 top ++ be16 left
    ++ be16 bottom ++ be16 right ++ be16 n
    ++ be32 x1 ++ be32 y1 ++ be32 x2 ++ be32 y2
    ++ be16 0 ++ be32 shape_roi_size ++ be32 0 ++ be32 0 ++ be16 subtype
    ++ be16 options ++ [0; 0] ++ be16 0 ++ be32 0 ++ be32 0).

Definition sample_rect : list byte :=
  sample_header 227 RoiType.RECT 10 20 30 40 0 0 0 0 0 0 0 0.

(** Version 227, option bit 128; x1 = 1.0, y1 = 2.0, x2 = 1.5, y2 = -1.0. *)
Definition sample_rect_subpixel : list byte :=
  sample_header 227 RoiType.RECT 10 20 30 40 0
    1065353216 1073741824 1069547520 3212836864 0 0 128.

(** Type [POLYGON], bounds (10, 20, 30, 40), two points: columns 1 and 2,
    rows 3 and 65535. *)
Definition sample_polygon : list byte :=
  sample_header 227 RoiType.POLYGON 10 20 30 40 2 0 0 0 0 0 0 0
    ++ bytes [0; 1; 0; 2; 0; 3; 255; 255].

(** Two points; the four skipped words 7, 8, 9, 10, then the columns
    1.0 and 2.0 and the rows 1.5 and -1.0. *)
Definition sample_polygon_subpixel : list byte :=
  sample_header 227 RoiType.POLYGON 10 20 30 40 2 0 0 0 0 0 0 128
    ++ bytes (be16 7 ++ be16 8 ++ be16 9 ++ be16 10
              ++ be32 1065353216 ++ be32 1073741824
              ++ be32 1069547520 ++ be32 3212836864).

Definition sample_no_points : list byte :=
  sample_header 227 RoiType.FREEHAND 10 20 30 40 0 0 0 0 0 0 0 0.

Definition sample_oval : list byte :=
  sample_header 227 RoiType.OVAL 10 20 30 40 0 0 0 0 0 0 0 0.

(** Version 221, below the gate; the options are the argument. *)
Definition sample_old_polygon (options : Z) : list byte :=
  sample_header 221 RoiType.POLYGON 10 20 30 40 2 0 0 0 0 0 0 options
    ++ bytes [0; 1; 0; 2; 0; 3; 255; 255].

(** Type [RECT], 11 floats of composite data: the path
    (1, 2) - (3, 4) and the path (5, 6), each closed by the opcode 4. *)
Definition sample_composite : list byte :=
  sample_header 227 RoiType.RECT 10 20 30 40 0 0 0 0 0 11 0 0
    ++ bytes (be32 0 ++ be32 1065353216 ++ be32 1073741824
              ++ be32 1065353216 ++ be32 1077936128 ++ be32 1082130432
              ++ be32 1082130432
              ++ be32 0 ++ be32 1084227584 ++ be32 1086324736
              ++ be32 1082130432).

(** ** The decoder as a reader, and the decoder by offsets *)

(** The body of [read_roi] with the file object it leaves behind. *)
Definition decode : reader geometry :=
  h <- read_header ;; read_shape h.

(** The bytes of coordinates that a header announces. *)
Definition payload_size (h : RoiHeader) : nat :=
  if roi_type h =? RoiType.RECT then 0%nat
  else if subPixelResolution h then (12 * Z.to_nat (n_coordinates h))%nat
  else (4 * Z.to_nat (n_coordinates h))%nat.

(** The corners of a rectangle, from its header. *)
Definition rect_points (h : RoiHeader) : geometry :=
  if subPixelResolution h then
    FloatPoints
      [(y1 h, x1 h);
       (y1 h, float32_add (x1 h) (x2 h));
       (float32_add (y1 h) (y2 h), float32_add (x1 h) (x2 h));
       (float32_add (y1 h) (y2 h), x1 h)]
  else
    IntPoints
      [(int16 (top h), int16 (left h));
       (int16 (top h), int16 (right h));
       (int16 (bottom h), int16 (right h));
       (int16 (bottom h), int16 (left h))].

(** The rows of a point list, from its header and from the bytes [f]
    that follow the header. *)
Definition list_points (h : RoiHeader) (f : list byte) : geometry :=
  let n := Z.to_nat (n_coordinates h) in
  if subPixelResolution h then
    FloatPoints
      (combine (map (fun i => f32_at f (8 * n + 4 * i)) (seq 0 n))
               (map (fun i => f32_at f (4 * n + 4 * i)) (seq 0 n)))
  else
    IntPoints
      (combine
         (map (fun i => int16 (int16 (u16_at f (2 * n + 2 * i)) + top h))
            (seq 0 n))
         (map (fun i => int16 (int16 (u16_at f (2 * i)) + left h))
            (seq 0 n))).

Definition shape_points (h : RoiHeader) (f : list byte) : geometry :=
  if roi_type h =? RoiType.RECT then rect_points h else list_points h f.

(** [read_roi] written on the offsets of the record, without a file
    position: the reference against which [read_roi] is compared. *)
Definition read_roi_by_offsets (d : list byte) : result geometry :=
  if bytes_eqb (firstn 4 d) Iout then
    if (length d <? 64)%nat then Err UnexpectedEof else
    let h := header_at d in
    if negb (supported (roi_type h)) then Err (UnsupportedRoiType (roi_type h)) else
    if negb (subtype h =? 0) then Err (UnsupportedSubtype (subtype h)) else
    if 0 <? shape_roi_size h then Err (NameError "file_obj") else
    if (length d <? 64 + payload_size h)%nat then Err UnexpectedEof
    else Ok (shape_points h (skipn 64 d))
  else Err BadMagic.

(** The header bytes that [read_roi] reads and never uses: the second
    type byte, the stroke width, the colours, the high byte of the
    options, and everything from the arrow style on. *)
Definition unused_offset (k : nat) : Prop :=
  k = 7%nat \/ (34 <= k <= 35)%nat \/ (40 <= k <= 47)%nat \/ k = 50%nat
  \/ (52 <= k <= 63)%nat.

(** The number of rows and the element type of a result. *)
Definition rows (g : geometry) : nat :=
  match g with
  | IntPoints points => length points
  | FloatPoints points => length points
  | Segments segments => length segments
  end.

Definition is_float (g : geometry) : bool :=
  match g with
  | FloatPoints _ => true
  | _ => false
  end.

(** Every run of [read_roi] is one of seven: the four rejections, the
    composite branch, a truncated payload, or a decoded shape. *)
Inductive outcome (d : list byte) : result geometry -> Prop :=
| outcome_magic :
    firstn 4 d <> Iout -> outcome d (Err BadMagic)
| outcome_header :
    firstn 4 d = Iout -> (length d < 64)%nat -> outcome d (Err UnexpectedEof)
| outcome_type :
    full_header d -> ~ In (roi_type (header_at d)) supported_types ->
    outcome d (Err (UnsupportedRoiType (roi_type (header_at d))))
| outcome_subtype :
    full_header d -> In (roi_type (header_at d)) supported_types ->
    subtype (header_at d) <> 0 ->
    outcome d (Err (UnsupportedSubtype (subtype (header_at d))))
| outcome_composite :
    full_header d -> In (roi_type (header_at d)) supported_types ->
    subtype (header_at d) = 0 -> 0 < shape_roi_size (header_at d) ->
    outcome d (Err (NameError "file_obj"))
| outcome_payload :
    full_header d -> accepted (header_at d) ->
    (length d < 64 + payload_size (header_at d))%nat ->
    outcome d (Err UnexpectedEof)
| outcome_points :
    full_header d -> accepted (header_at d) ->
    (64 + payload_size (header_at d) <= length d)%nat ->
    outcome d (Ok (shape_points (header_at d) (skipn 64 d))).

(** ** [read_roi_zip] (lines 176-178) *)

(** What [read_roi_zip] uses of the archive that [zipfile.ZipFile(fname)]
    opens: the names of its members, in the order of [namelist()], and
    the bytes that [read(n)] returns for a name.  Opening the archive and
    decompressing a member are the library's and are not modelled. *)
Record ZipFile : Type := {
  namelist : list string;
  zread : string -> list byte
}.

(** [[(n, read_roi(BytesIO(zf.read(n)))) for n in names]]: the
    comprehension stops at the first exception. *)
Fixpoint read_entries (zf : ZipFile) (names : list string)
    : result (list (string * geometry)) :=
  match names with
  | [] => Ok []
  | n :: names' =>
      match read_roi (zread zf n) with
      | Err e => Err e
      | Ok points =>
          match read_entries zf names' with
          | Err e => Err e
          | Ok entries => Ok ((n, points) :: entries)
          end
      end
  end.

Definition read_roi_zip (zf : ZipFile) : result (list (string * geometry)) :=
  read_entries zf (namelist zf).

(** ** More sample records *)

(** [sample_rect] with a wrong first byte. *)
Definition sample_wrong_magic : list byte := x58 :: skipn 1 sample_rect.

(** A polygon header with subtype 1. *)
Definition sample_subtype : list byte :=
  sample_header 227 RoiType.POLYGON 10 20 30 40 2 0 0 0 0 0 1 0
    ++ bytes [0; 1; 0; 2; 0; 3; 255; 255].


(** [sample_polygon] with other bytes at the unused offsets. *)
Definition sample_polygon_decorated : list byte :=
  firstn 7 sample_polygon ++ bytes [9]
    ++ firstn 26 (skipn 8 sample_polygon) ++ bytes [0; 3]
    ++ firstn 4 (skipn 36 sample_polygon)
    ++ bytes [255; 0; 0; 255; 1; 2; 3; 4]
    ++ firstn 2 (skipn 48 sample_polygon) ++ bytes [1]
    ++ firstn 1 (skipn 51 sample_polygon)
    ++ bytes [1; 2; 0; 5; 0; 0; 0; 7; 0; 0; 1; 0]
    ++ skipn 64 sample_polygon.

(** An archive of three members, and one whose second member is an
    oval. *)
Definition sample_zip : ZipFile :=
  {| namelist := ["a.roi"; "b.roi"; "c.roi"]%string;
     zread := fun n =>
       if String.eqb n "a.roi" then sample_rect
       else if String.eqb n "b.roi" then sample_polygon
       else sample_polygon_subpixel |}.

Definition sample_zip_oval : ZipFile :=
  {| namelist := ["a.roi"; "b.roi"; "c.roi"]%string;
     zread := fun n =>
       if String.eqb n "a.roi" then sample_rect
       else if String.eqb n "b.roi" then sample_oval
       else [] |}.

(** * Properties *)

(** ** Readers of a fixed width *)

Lemma fixed_width_ret {A} (a : A) : fixed_width 0 (ret a) (fun _ => a).
Proof. intros f. reflexivity. Qed.

Lemma fixed_width_bind {A B} n k (m : reader A) (g : A -> reader B) v w :
  fixed_width n m v ->
  (forall a, fixed_width k (g a) (w a)) ->
  fixed_width (n + k) (bind m g) (fun f => w (v f) (skipn n f)).
Proof.
  intros Hm Hg f. unfold bind. rewrite Hm.
  destruct (Nat.ltb_spec (length f) n) as [Hlt | Hge].
  - destruct (Nat.ltb_spec (length f) (n + k)); [reflexivity | lia].
  - rewrite Hg, length_skipn, skipn_skipn.
    replace (k + n)%nat with (n + k)%nat by lia.
    destruct (Nat.ltb_spec (length f - n) k);
      destruct (Nat.ltb_spec (length f) (n + k)); (reflexivity || lia).
Qed.

Lemma fixed_width_ext {A} n n' (m : reader A) v v' :
  fixed_width n m v ->
  n = n' ->
  (forall f, (n <= length f)%nat -> v f = v' f) ->
  fixed_width n' m v'.
Proof.
  intros Hm <- Hv f. rewrite Hm.
  destruct (Nat.ltb_spec (length f) n); [reflexivity |].
  now rewrite Hv.
Qed.

Lemma fixed_width_get8 : fixed_width 1 get8 (fun f => byte_at f 0).
Proof. intros [| b f]; reflexivity. Qed.

Lemma fixed_width_get16 : fixed_width 2 get16 (fun f => u16_at f 0).
Proof.
  unfold get16.
  eapply fixed_width_ext.
  - eapply fixed_width_bind; [apply fixed_width_get8 | intros b0].
    eapply fixed_width_bind; [apply fixed_width_get8 | intros b1].
    apply fixed_width_ret.
  - reflexivity.
  - intros [| b0 [| b1 f]] Hlen; simpl in Hlen; try lia. reflexivity.
Qed.

Lemma fixed_width_get32 : fixed_width 4 get32 (fun f => u32_at f 0).
Proof.
  unfold get32.
  eapply fixed_width_ext.
  - eapply fixed_width_bind; [apply fixed_width_get16 | intros s0].
    eapply fixed_width_bind; [apply fixed_width_get16 | intros s1].
    apply fixed_width_ret.
  - reflexivity.
  - intros [| b0 [| b1 [| b2 [| b3 f]]]] Hlen; simpl in Hlen; try lia.
    reflexivity.
Qed.

Lemma fixed_width_getfloat : fixed_width 4 getfloat (fun f => f32_at f 0).
Proof.
  unfold getfloat.
  eapply fixed_width_ext.
  - eapply fixed_width_bind; [apply fixed_width_get32 | intros w].
    apply fixed_width_ret.
  - reflexivity.
  - reflexivity.
Qed.

Lemma fixed_width_replicateM {A} k (m : reader A) v n :
  fixed_width k m v ->
  fixed_width (n * k) (replicateM n m)
    (fun f => map (fun i => v (skipn (i * k) f)) (seq 0 n)).
Proof.
  intros Hm. induction n as [| n IH].
  - apply fixed_width_ret.
  - cbn [replicateM].
    eapply fixed_width_ext.
    + eapply fixed_width_bind; [exact Hm | intros x].
      eapply fixed_width_bind; [exact IH | intros xs].
      apply fixed_width_ret.
    + simpl. lia.
    + intros f _. cbn [seq map]. f_equal.
      rewrite <- seq_shift, map_map.
      apply map_ext. intros i. rewrite skipn_skipn.
      f_equal. f_equal. simpl. lia.
Qed.

(** ** Values on the wire *)

Lemma byte_at_skipn d j off : byte_at (skipn j d) off = byte_at d (j + off).
Proof. unfold byte_at. now rewrite nth_skipn. Qed.

Lemma u16_at_skipn d j off : u16_at (skipn j d) off = u16_at d (j + off).
Proof.
  unfold u16_at. rewrite !byte_at_skipn. now rewrite Nat.add_assoc.
Qed.

Lemma u32_at_skipn d j off : u32_at (skipn j d) off = u32_at d (j + off).
Proof.
  unfold u32_at. rewrite !u16_at_skipn. now rewrite Nat.add_assoc.
Qed.

Lemma f32_at_skipn d j off : f32_at (skipn j d) off = f32_at d (j + off).
Proof. unfold f32_at. now rewrite u32_at_skipn. Qed.

Lemma ord_range b : 0 <= ord b < 256.
Proof. destruct b; vm_compute; split; congruence. Qed.

(** ** The header section *)

Lemma bytes_eqb_eq a b : bytes_eqb a b = true <-> a = b.
Proof.
  revert b. induction a as [| x a IH]; intros [| y b]; simpl;
    try (split; (congruence || discriminate)).
  rewrite andb_true_iff, IH. split.
  - intros [Hxy ->]. now rewrite (Byte.byte_dec_bl _ _ Hxy).
  - intros [= -> ->]. split; [now apply Byte.byte_dec_lb | reflexivity].
Qed.

(** The fields take 60 bytes, and come from the offsets of the format's
    table (which counts from the magic number). *)
Lemma fixed_width_read_fields magic :
  length magic = 4%nat ->
  fixed_width 60 read_fields (fun f => header_at (magic ++ f)).
Proof.
  intros Hmagic. unfold read_fields.
  eapply fixed_width_ext.
  - repeat (eapply fixed_width_bind;
            [ first [ apply fixed_width_get16 | apply fixed_width_get8
                    | apply fixed_width_get32 | apply fixed_width_getfloat ]
            | intros ? ]).
    apply fixed_width_ret.
  - reflexivity.
  - intros f _.
    do 5 (destruct magic as [| ? magic]; try discriminate Hmagic).
    cbv beta.
    repeat rewrite ?skipn_skipn, ?byte_at_skipn, ?u16_at_skipn,
      ?u32_at_skipn, ?f32_at_skipn.
    reflexivity.
Qed.

(** [read_header] in closed form: the magic number is compared first,
    on however many bytes [read(4)] returned; the 60 bytes of fields are
    demanded only after it matched. *)
Lemma read_header_eq d :
  read_header d =
    if bytes_eqb (firstn 4 d) Iout then
      if (length d <? 64)%nat then Err UnexpectedEof
      else Ok (header_at d, skipn 64 d)
    else Err BadMagic.
Proof.
  unfold read_header, bind, read.
  destruct (bytes_eqb (firstn 4 d) Iout) eqn:Hmagic; [| reflexivity].
  cbn [negb]. apply bytes_eqb_eq in Hmagic.
  rewrite (fixed_width_read_fields (firstn 4 d)) by now rewrite Hmagic.
  rewrite length_skipn, skipn_skipn, firstn_skipn.
  destruct (Nat.ltb_spec (length d - 4) 60);
    destruct (Nat.ltb_spec (length d) 64); try lia; reflexivity.
Qed.

Lemma read_roi_eq d :
  read_roi d =
    if bytes_eqb (firstn 4 d) Iout then
      if (length d <? 64)%nat then Err UnexpectedEof
      else returned (read_shape (header_at d) (skipn 64 d))
    else Err BadMagic.
Proof.
  unfold read_roi, bind. rewrite read_header_eq.
  destruct (bytes_eqb (firstn 4 d) Iout); [| reflexivity].
  destruct (length d <? 64)%nat; reflexivity.
Qed.

Lemma read_roi_full_header d :
  full_header d ->
  read_roi d = returned (read_shape (header_at d) (skipn 64 d)).
Proof.
  intros [Hmagic Hlen]. rewrite read_roi_eq.
  apply bytes_eqb_eq in Hmagic. rewrite Hmagic.
  destruct (Nat.ltb_spec (length d) 64); [lia | reflexivity].
Qed.

Lemma firstn_short_not_magic (d : list byte) :
  (length d < 4)%nat -> bytes_eqb (firstn 4 d) Iout = false.
Proof.
  intros Hlen. destruct (bytes_eqb (firstn 4 d) Iout) eqn:Hmagic; [| reflexivity].
  apply bytes_eqb_eq in Hmagic. apply (f_equal (@length byte)) in Hmagic.
  rewrite length_firstn in Hmagic.
  change (length Iout) with 4%nat in Hmagic. lia.
Qed.

(** ** Truncated records *)

(** C10. An input of fewer than 4 bytes fails with the magic-number
    error, not with the end-of-file error: [fileobj.read(4)] returns the
    short string, and the comparison with [b'Iout'] rejects it. *)
Theorem short_input_bad_magic (d : list byte) :
  (length d < 4)%nat -> read_roi d = Err BadMagic.
Proof.
  intros Hlen. rewrite read_roi_eq.
  now rewrite (firstn_short_not_magic d Hlen).
Qed.

Lemma short_input_bad_magic_witness :
  read_roi (bytes [73; 111; 117]) = Err BadMagic.
Proof. apply short_input_bad_magic. simpl. lia. Defined.

(** C2, as stated, fails: the empty input holds fewer bytes than the
    header and [read_roi] raises the magic-number error on it. *)
Lemma truncated_not_always_eof :
  (length (@nil byte) < 64)%nat /\
  read_roi [] = Err BadMagic /\
  read_roi [] <> Err UnexpectedEof.
Proof. repeat split; [simpl; lia | discriminate]. Qed.

(** C2, amended. An input of fewer than 64 bytes never yields a header
    or a geometry: [read_roi] raises [UnexpectedEof] when the input
    starts with the magic number, and [BadMagic] when it does not (in
    particular when it is shorter than the magic number). *)
Theorem truncated_header_fails (d : list byte) :
  (length d < 64)%nat ->
  read_roi d =
    Err (if bytes_eqb (firstn 4 d) Iout then UnexpectedEof else BadMagic)
  /\ (firstn 4 d = Iout -> read_roi d = Err UnexpectedEof)
  /\ (forall points, read_roi d <> Ok points).
Proof.
  intros Hlen.
  assert (H : read_roi d =
    Err (if bytes_eqb (firstn 4 d) Iout then UnexpectedEof else BadMagic)).
  { rewrite read_roi_eq.
    destruct (bytes_eqb (firstn 4 d) Iout); [| reflexivity].
    destruct (Nat.ltb_spec (length d) 64); [reflexivity | lia]. }
  split; [exact H |]. split.
  - intros Hmagic. rewrite H.
    apply bytes_eqb_eq in Hmagic. now rewrite Hmagic.
  - intros points. rewrite H. discriminate.
Qed.

Lemma truncated_header_fails_witness :
  read_roi (Iout ++ bytes [0; 227; 1; 0; 0; 10]) = Err UnexpectedEof.
Proof.
  apply (truncated_header_fails (Iout ++ bytes [0; 227; 1; 0; 0; 10])).
  - simpl. lia.
  - reflexivity.
Defined.

(** ** The shape section, branch by branch *)

Lemma supported_In t : supported t = true <-> In t supported_types.
Proof.
  unfold supported. rewrite existsb_exists. split.
  - intros [x [Hin Heq]]. apply Z.eqb_eq in Heq. now subst.
  - intros Hin. exists t. split; [exact Hin | apply Z.eqb_refl].
Qed.

Lemma supported_not_In t : supported t = false <-> ~ In t supported_types.
Proof.
  rewrite <- supported_In. destruct (supported t); split; congruence.
Qed.

Ltac pass_guards Hacc :=
  let Ht := fresh "Ht" in
  pose proof (proj2 (supported_In _) (accepted_type _ Hacc)) as Ht;
  unfold read_shape;
  rewrite Ht, (accepted_subtype _ Hacc), (accepted_not_composite _ Hacc);
  cbn [negb Z.eqb Z.ltb Z.compare].

Lemma read_shape_rect h f :
  accepted h -> roi_type h = RoiType.RECT ->
  read_shape h f =
    Ok (if subPixelResolution h then
          FloatPoints
            [(y1 h, x1 h);
             (y1 h, float32_add (x1 h) (x2 h));
             (float32_add (y1 h) (y2 h), float32_add (x1 h) (x2 h));
             (float32_add (y1 h) (y2 h), x1 h)]
        else
          IntPoints
            [(int16 (top h), int16 (left h));
             (int16 (top h), int16 (right h));
             (int16 (bottom h), int16 (right h));
             (int16 (bottom h), int16 (left h))], f).
Proof.
  intros Hacc Hrect. pass_guards Hacc.
  rewrite Hrect, Z.eqb_refl.
  destruct (subPixelResolution h); reflexivity.
Qed.

(** Point list, integer coordinates: [2n] big-endian 16-bit words, the
    [n] columns before the [n] rows. *)
Lemma read_shape_int_points h f :
  accepted h -> roi_type h <> RoiType.RECT -> subPixelResolution h = false ->
  let n := Z.to_nat (n_coordinates h) in
  read_shape h f =
    if (length f <? 4 * n)%nat then Err UnexpectedEof
    else Ok (IntPoints
               (combine
                  (map (fun i => int16 (int16 (u16_at f (2 * n + 2 * i)) + top h))
                     (seq 0 n))
                  (map (fun i => int16 (int16 (u16_at f (2 * i)) + left h))
                     (seq 0 n))),
             skipn (4 * n) f).
Proof.
  intros Hacc Hrect Hsub n. pass_guards Hacc.
  apply Z.eqb_neq in Hrect. rewrite Hrect, Hsub. fold n.
  match goal with |- ?m f = _ => set (body := m) end.
  assert (Hbody : fixed_width (4 * n) body (fun f =>
    IntPoints
      (combine
         (map (fun i => int16 (int16 (u16_at f (2 * n + 2 * i)) + top h))
            (seq 0 n))
         (map (fun i => int16 (int16 (u16_at f (2 * i)) + left h))
            (seq 0 n))))).
  { subst body. eapply fixed_width_ext.
    - eapply fixed_width_bind;
        [eapply fixed_width_replicateM, fixed_width_get16 | intros xs].
      eapply fixed_width_bind;
        [eapply fixed_width_replicateM, fixed_width_get16 | intros ys].
      apply fixed_width_ret.
    - lia.
    - intros g _. cbv beta. rewrite !map_map. f_equal. f_equal.
      + apply map_ext. intros i. rewrite !u16_at_skipn.
        do 4 f_equal. lia.
      + apply map_ext. intros i. rewrite !u16_at_skipn.
        do 4 f_equal. lia. }
  apply Hbody.
Qed.

(** Point list, sub-pixel coordinates: [4n] bytes passed over, then [2n]
    big-endian binary32 words, the [n] columns before the [n] rows. *)
Lemma read_shape_float_points h f :
  accepted h -> roi_type h <> RoiType.RECT -> subPixelResolution h = true ->
  let n := Z.to_nat (n_coordinates h) in
  read_shape h f =
    if (length f <? 12 * n)%nat then Err UnexpectedEof
    else Ok (FloatPoints
               (combine
                  (map (fun i => f32_at f (8 * n + 4 * i)) (seq 0 n))
                  (map (fun i => f32_at f (4 * n + 4 * i)) (seq 0 n))),
             skipn (12 * n) f).
Proof.
  intros Hacc Hrect Hsub n. pass_guards Hacc.
  apply Z.eqb_neq in Hrect. rewrite Hrect, Hsub. fold n.
  unfold bind at 1. unfold seek_cur.
  match goal with |- ?m (skipn _ f) = _ => set (body := m) end.
  assert (Hbody : fixed_width (8 * n) body (fun g =>
    FloatPoints
      (combine (map (fun i => f32_at g (4 * n + 4 * i)) (seq 0 n))
               (map (fun i => f32_at g (4 * i)) (seq 0 n))))).
  { subst body. eapply fixed_width_ext.
    - eapply fixed_width_bind;
        [eapply fixed_width_replicateM, fixed_width_getfloat
        | intros xs].
      eapply fixed_width_bind;
        [eapply fixed_width_replicateM, fixed_width_getfloat
        | intros ys].
      apply fixed_width_ret.
    - lia.
    - intros g _. cbv beta. f_equal. f_equal.
      + apply map_ext. intros i. rewrite !f32_at_skipn.
        f_equal. lia.
      + apply map_ext. intros i. rewrite !f32_at_skipn.
        f_equal. lia. }
  rewrite Hbody, length_skipn, skipn_skipn.
  destruct (Nat.ltb_spec (length f - 4 * n) (8 * n));
    destruct (Nat.ltb_spec (length f) (12 * n)); try lia; [reflexivity |].
  replace (8 * n + 4 * n)%nat with (12 * n)%nat by lia.
  do 4 f_equal; apply map_ext; intros i; rewrite f32_at_skipn; f_equal; lia.
Qed.

(** ** 16-bit arithmetic *)

Lemma int16_small z : -32768 <= z < 32768 -> int16 z = z.
Proof. intros Hz. unfold int16. rewrite Z.mod_small; lia. Qed.

Lemma int16_range z : -32768 <= int16 z < 32768.
Proof. unfold int16. pose proof (Z.mod_pos_bound (z + 32768) 65536). lia. Qed.

Lemma int16_add_l a b : int16 (int16 a + b) = int16 (a + b).
Proof.
  unfold int16.
  replace ((a + 32768) mod 65536 - 32768 + b + 32768)
    with ((a + 32768) mod 65536 + b) by lia.
  rewrite Z.add_mod_idemp_l by lia.
  do 2 f_equal. lia.
Qed.

Lemma byte_at_range d off : 0 <= byte_at d off < 256.
Proof. apply ord_range. Qed.

Lemma u16_at_nonneg d off : 0 <= u16_at d off.
Proof.
  unfold u16_at. apply Z.lor_nonneg. split.
  - apply Z.shiftl_nonneg, byte_at_range.
  - apply byte_at_range.
Qed.

Lemma u32_at_nonneg d off : 0 <= u32_at d off.
Proof.
  unfold u32_at. apply Z.lor_nonneg. split.
  - apply Z.shiftl_nonneg, u16_at_nonneg.
  - apply u16_at_nonneg.
Qed.

(** ** Rectangles *)

(** C5. A rectangle record (type [RECT], subtype 0, no composite data)
    read without sub-pixel resolution yields exactly the four corners
    [top,left], [top,right], [bottom,right], [bottom,left], in this
    order, as [int16] values; bounds below 32768 are returned
    unchanged. *)
Theorem rect_int_corners (d : list byte) :
  full_header d ->
  roi_type (header_at d) = RoiType.RECT ->
  subtype (header_at d) = 0 ->
  shape_roi_size (header_at d) = 0 ->
  subPixelResolution (header_at d) = false ->
  read_roi d =
    Ok (IntPoints
          [(int16 (top (header_at d)), int16 (left (header_at d)));
           (int16 (top (header_at d)), int16 (right (header_at d)));
           (int16 (bottom (header_at d)), int16 (right (header_at d)));
           (int16 (bottom (header_at d)), int16 (left (header_at d)))])
  /\ (top (header_at d) < 32768 -> left (header_at d) < 32768 ->
      bottom (header_at d) < 32768 -> right (header_at d) < 32768 ->
      read_roi d =
        Ok (IntPoints
              [(top (header_at d), left (header_at d));
               (top (header_at d), right (header_at d));
               (bottom (header_at d), right (header_at d));
               (bottom (header_at d), left (header_at d))])).
Proof.
  intros Hfull Hrect Hsubtype Hshape Hsub.
  assert (Hacc : accepted (header_at d)).
  { split; try assumption. rewrite Hrect. simpl. tauto. }
  assert (H : read_roi d =
    Ok (IntPoints
          [(int16 (top (header_at d)), int16 (left (header_at d)));
           (int16 (top (header_at d)), int16 (right (header_at d)));
           (int16 (bottom (header_at d)), int16 (right (header_at d)));
           (int16 (bottom (header_at d)), int16 (left (header_at d)))])).
  { rewrite (read_roi_full_header d Hfull).
    rewrite (read_shape_rect _ _ Hacc Hrect), Hsub. reflexivity. }
  split; [exact H |].
  intros Ht Hl Hb Hr. rewrite H.
  pose proof (u16_at_nonneg d 8). pose proof (u16_at_nonneg d 10).
  pose proof (u16_at_nonneg d 12). pose proof (u16_at_nonneg d 14).
  cbn [top left bottom right header_at] in *.
  rewrite !int16_small by lia. reflexivity.
Qed.

(** C6. A rectangle record read with sub-pixel resolution (option bit
    set and version at least 222) yields the four [float32] points
    [y1,x1], [y1,x1+x2], [y1+y2,x1+x2], [y1+y2,x1]: [x2] and [y2] are
    added to the corner [(x1, y1)]. *)
Theorem rect_float_corners (d : list byte) :
  full_header d ->
  roi_type (header_at d) = RoiType.RECT ->
  subtype (header_at d) = 0 ->
  shape_roi_size (header_at d) = 0 ->
  Z.land (options (header_at d)) SUB_PIXEL_RESOLUTION <> 0 ->
  222 <= version (header_at d) ->
  read_roi d =
    Ok (FloatPoints
          [(y1 (header_at d), x1 (header_at d));
           (y1 (header_at d), float32_add (x1 (header_at d)) (x2 (header_at d)));
           (float32_add (y1 (header_at d)) (y2 (header_at d)),
            float32_add (x1 (header_at d)) (x2 (header_at d)));
           (float32_add (y1 (header_at d)) (y2 (header_at d)), x1 (header_at d))]).
Proof.
  intros Hfull Hrect Hsubtype Hshape Hbit Hversion.
  assert (Hacc : accepted (header_at d)).
  { split; try assumption. rewrite Hrect. simpl. tauto. }
  assert (Hsub : subPixelResolution (header_at d) = true).
  { unfold subPixelResolution. apply andb_true_iff. split.
    - apply negb_true_iff, Z.eqb_neq, Hbit.
    - apply Z.leb_le, Hversion. }
  rewrite (read_roi_full_header d Hfull).
  rewrite (read_shape_rect _ _ Hacc Hrect), Hsub. reflexivity.
Qed.

Lemma rect_int_corners_witness :
  read_roi sample_rect = Ok (IntPoints [(10, 20); (10, 40); (30, 40); (30, 20)]).
Proof.
  refine (proj2 (rect_int_corners sample_rect _ _ _ _ _) _ _ _ _);
    try reflexivity.
  split; [reflexivity | simpl; lia].
Defined.

Lemma rect_float_corners_witness :
  read_roi sample_rect_subpixel =
    Ok (FloatPoints
          [(S754_finite false 8388608 (-22), S754_finite false 8388608 (-23));
           (S754_finite false 8388608 (-22), S754_finite false 10485760 (-22));
           (S754_finite false 8388608 (-23), S754_finite false 10485760 (-22));
           (S754_finite false 8388608 (-23), S754_finite false 8388608 (-23))]).
Proof.
  refine (rect_float_corners sample_rect_subpixel _ _ _ _ _ _);
    try reflexivity.
  - split; [reflexivity | simpl; lia].
  - vm_compute. discriminate.
  - vm_compute. discriminate.
Defined.

(** ** Point lists *)

Lemma nth_map_seq {A} (g : nat -> A) n i dflt :
  (i < n)%nat -> nth i (map g (seq 0 n)) dflt = g i.
Proof.
  intros Hi.
  rewrite (nth_indep _ dflt (g 0%nat)) by (rewrite length_map, length_seq; lia).
  rewrite map_nth, seq_nth by lia. reflexivity.
Qed.

Lemma nth_combine_map_seq {A B} (g : nat -> A) (k : nat -> B) n i dflt :
  (i < n)%nat ->
  nth i (combine (map g (seq 0 n)) (map k (seq 0 n))) dflt = (g i, k i).
Proof.
  intros Hi. destruct dflt as [a b].
  rewrite combine_nth by now rewrite !length_map.
  now rewrite !nth_map_seq.
Qed.

(** C3. A point-list record (a supported type other than [RECT],
    subtype 0, no composite data) read without sub-pixel resolution and
    holding its [4 * n_coordinates] bytes of coordinates yields
    [n_coordinates] rows; row [i] is [(top + raw_y_i, left + raw_x_i)] in
    [int16], where [raw_x_i] is the 16-bit word [i] after the header and
    [raw_y_i] the word [n_coordinates + i] (columns first, then rows).
    Sums below 32768 are returned unchanged. *)
Theorem int_point_rows (d : list byte) :
  full_header d ->
  accepted (header_at d) ->
  roi_type (header_at d) <> RoiType.RECT ->
  subPixelResolution (header_at d) = false ->
  (64 + 4 * Z.to_nat (n_coordinates (header_at d)) <= length d)%nat ->
  exists points,
    read_roi d = Ok (IntPoints points) /\
    length points = Z.to_nat (n_coordinates (header_at d)) /\
    forall i, (i < Z.to_nat (n_coordinates (header_at d)))%nat ->
      let raw_x := u16_at d (64 + 2 * i) in
      let raw_y :=
        u16_at d (64 + 2 * Z.to_nat (n_coordinates (header_at d)) + 2 * i) in
      nth i points (0, 0) =
        (int16 (top (header_at d) + int16 raw_y),
         int16 (left (header_at d) + int16 raw_x))
      /\ (top (header_at d) + int16 raw_y < 32768 ->
          left (header_at d) + int16 raw_x < 32768 ->
          nth i points (0, 0) =
            (top (header_at d) + int16 raw_y,
             left (header_at d) + int16 raw_x)).
Proof.
  intros Hfull Hacc Hrect Hsub Hlen.
  set (h := header_at d) in *. set (n := Z.to_nat (n_coordinates h)) in *.
  eexists. split; [| split].
  - rewrite (read_roi_full_header d Hfull). fold h.
    rewrite (read_shape_int_points h _ Hacc Hrect Hsub). fold n.
    rewrite length_skipn.
    destruct (Nat.ltb_spec (length d - 64) (4 * n)); [lia |].
    reflexivity.
  - rewrite length_combine, !length_map, !length_seq. lia.
  - intros i Hi raw_x raw_y.
    rewrite nth_combine_map_seq by exact Hi.
    rewrite !u16_at_skipn.
    replace (64 + (2 * n + 2 * i))%nat with (64 + 2 * n + 2 * i)%nat by lia.
    fold raw_x raw_y.
    rewrite (Z.add_comm (int16 raw_y)), (Z.add_comm (int16 raw_x)).
    split; [reflexivity |].
    intros Hy Hx.
    pose proof (u16_at_nonneg d 8) as Htop.
    pose proof (u16_at_nonneg d 10) as Hleft.
    change (u16_at d 8) with (top h) in Htop.
    change (u16_at d 10) with (left h) in Hleft.
    pose proof (int16_range raw_x). pose proof (int16_range raw_y).
    rewrite !(int16_small (_ + _)) by lia. reflexivity.
Qed.

Lemma sample_polygon_accepted : accepted (header_at sample_polygon).
Proof. split; [simpl; tauto | reflexivity | reflexivity]. Defined.

Lemma int_point_rows_witness :
  exists points,
    read_roi sample_polygon = Ok (IntPoints points) /\
    length points = 2%nat /\
    forall i, (i < 2)%nat ->
      nth i points (0, 0) =
        (int16 (10 + int16 (u16_at sample_polygon (64 + 2 * 2 + 2 * i))),
         int16 (20 + int16 (u16_at sample_polygon (64 + 2 * i))))
      /\ (10 + int16 (u16_at sample_polygon (64 + 2 * 2 + 2 * i)) < 32768 ->
          20 + int16 (u16_at sample_polygon (64 + 2 * i)) < 32768 ->
          nth i points (0, 0) =
            (10 + int16 (u16_at sample_polygon (64 + 2 * 2 + 2 * i)),
             20 + int16 (u16_at sample_polygon (64 + 2 * i)))).
Proof.
  refine (int_point_rows sample_polygon _ sample_polygon_accepted _ _ _).
  - split; [reflexivity | simpl; lia].
  - discriminate.
  - reflexivity.
  - simpl. lia.
Defined.

(** The header is a function of the first 64 bytes. *)
Lemma byte_at_firstn d k off :
  (off < k)%nat -> byte_at (firstn k d) off = byte_at d off.
Proof.
  intros Hoff. unfold byte_at. rewrite nth_firstn.
  destruct (Nat.ltb_spec off k); [reflexivity | lia].
Qed.

Lemma header_at_firstn d : header_at (firstn 64 d) = header_at d.
Proof.
  unfold header_at, f32_at, u32_at, u16_at.
  rewrite !byte_at_firstn by (simpl; lia). reflexivity.
Qed.

Lemma byte_at_app_r (p x : list byte) off :
  byte_at (p ++ x) (length p + off) = byte_at x off.
Proof. unfold byte_at. now rewrite app_nth2_plus. Qed.

Lemma f32_at_app_r (p x : list byte) off :
  f32_at (p ++ x) (length p + off) = f32_at x off.
Proof.
  unfold f32_at, u32_at, u16_at.
  rewrite <- !Nat.add_assoc, !byte_at_app_r. reflexivity.
Qed.

(** C4. A point-list record read with sub-pixel resolution and holding
    its [12 * n_coordinates] bytes: the [4 * n_coordinates] bytes after
    the header are passed over unread (whatever bytes stand there, the
    result is the same), the next [n_coordinates] binary32 words are the
    columns (x) and the following [n_coordinates] the rows (y); row [i]
    of the result is the pair (y_i, x_i) of these [float32] values, with
    nothing added to them. *)
Theorem float_point_rows (d : list byte) :
  full_header d ->
  accepted (header_at d) ->
  roi_type (header_at d) <> RoiType.RECT ->
  subPixelResolution (header_at d) = true ->
  (64 + 12 * Z.to_nat (n_coordinates (header_at d)) <= length d)%nat ->
  (exists points,
     read_roi d = Ok (FloatPoints points) /\
     length points = Z.to_nat (n_coordinates (header_at d)) /\
     forall i, (i < Z.to_nat (n_coordinates (header_at d)))%nat ->
       nth i points (S754_nan, S754_nan) =
         (f32_at d (64 + 8 * Z.to_nat (n_coordinates (header_at d)) + 4 * i),
          f32_at d (64 + 4 * Z.to_nat (n_coordinates (header_at d)) + 4 * i)))
  /\ (forall gap,
        length gap = (4 * Z.to_nat (n_coordinates (header_at d)))%nat ->
        read_roi (with_gap d gap) = read_roi d).
Proof.
  intros Hfull Hacc Hrect Hsub Hlen.
  set (h := header_at d) in *. set (n := Z.to_nat (n_coordinates h)) in *.
  assert (Hrun : forall f, (12 * n <= length f)%nat ->
    returned (read_shape h f) =
      Ok (FloatPoints
            (combine (map (fun i => f32_at f (8 * n + 4 * i)) (seq 0 n))
                     (map (fun i => f32_at f (4 * n + 4 * i)) (seq 0 n))))).
  { intros f Hf. rewrite (read_shape_float_points h _ Hacc Hrect Hsub). fold n.
    destruct (Nat.ltb_spec (length f) (12 * n)); [lia | reflexivity]. }
  split.
  - eexists. split; [| split].
    + rewrite (read_roi_full_header d Hfull). fold h.
      apply Hrun. rewrite length_skipn. lia.
    + rewrite length_combine, !length_map, !length_seq. lia.
    + intros i Hi.
      rewrite nth_combine_map_seq by exact Hi.
      rewrite !f32_at_skipn. f_equal; f_equal; lia.
  - intros gap Hgap. destruct Hfull as [Hmagic H64].
    assert (Hfull' : full_header (with_gap d gap)).
    { unfold with_gap. split.
      - rewrite firstn_app, firstn_firstn, length_firstn.
        replace (4 - Nat.min 64 (length d))%nat with 0%nat by lia.
        cbn [Nat.min firstn]. rewrite app_nil_r. exact Hmagic.
      - rewrite length_app, length_firstn. lia. }
    assert (Hh : header_at (with_gap d gap) = h).
    { rewrite <- (header_at_firstn (with_gap d gap)). unfold with_gap.
      rewrite firstn_app, firstn_firstn, length_firstn.
      replace (64 - Nat.min 64 (length d))%nat with 0%nat by lia.
      rewrite Nat.min_id. cbn [firstn]. rewrite app_nil_r.
      apply header_at_firstn. }
    assert (Hrest : skipn 64 (with_gap d gap)
                    = gap ++ skipn (4 * n) (skipn 64 d)).
    { unfold with_gap. rewrite skipn_app, length_firstn, skipn_all2
        by (rewrite length_firstn; lia).
      replace (64 - Nat.min 64 (length d))%nat with 0%nat by lia.
      rewrite skipn_skipn, Hgap. cbn [skipn app]. do 2 f_equal. lia. }
    rewrite (read_roi_full_header _ Hfull'), Hh, Hrest.
    rewrite (read_roi_full_header d (conj Hmagic H64)). fold h.
    rewrite !Hrun
      by (rewrite ?length_app, ?length_skipn; lia).
    do 3 f_equal; apply map_ext; intros i.
    + replace (8 * n + 4 * i)%nat with (length gap + (4 * n + 4 * i))%nat by lia.
      rewrite f32_at_app_r, f32_at_skipn. f_equal. lia.
    + replace (4 * n + 4 * i)%nat with (length gap + 4 * i)%nat by lia.
      rewrite f32_at_app_r, f32_at_skipn. f_equal. lia.
Qed.

Lemma sample_polygon_subpixel_accepted :
  accepted (header_at sample_polygon_subpixel).
Proof. split; [simpl; tauto | reflexivity | reflexivity]. Defined.

Lemma float_point_rows_witness :
  (exists points,
     read_roi sample_polygon_subpixel = Ok (FloatPoints points) /\
     length points = 2%nat /\
     forall i, (i < 2)%nat ->
       nth i points (S754_nan, S754_nan) =
         (f32_at sample_polygon_subpixel (64 + 8 * 2 + 4 * i),
          f32_at sample_polygon_subpixel (64 + 4 * 2 + 4 * i)))
  /\ (forall gap,
        length gap = (4 * 2)%nat ->
        read_roi (with_gap sample_polygon_subpixel gap)
        = read_roi sample_polygon_subpixel).
Proof.
  refine (float_point_rows sample_polygon_subpixel _
            sample_polygon_subpixel_accepted _ _ _).
  - split; [reflexivity | simpl; lia].
  - discriminate.
  - reflexivity.
  - simpl. lia.
Defined.

(** C8. A point-list record with [n_coordinates = 0] is decoded without
    error to an array of no rows (of two columns each): of [float32]
    when sub-pixel resolution is on, of [int16] when it is off. *)
Theorem no_coordinates_empty (d : list byte) :
  full_header d ->
  accepted (header_at d) ->
  roi_type (header_at d) <> RoiType.RECT ->
  n_coordinates (header_at d) = 0 ->
  read_roi d =
    Ok (if subPixelResolution (header_at d) then FloatPoints []
        else IntPoints []).
Proof.
  intros Hfull Hacc Hrect Hn.
  rewrite (read_roi_full_header d Hfull).
  destruct (subPixelResolution (header_at d)) eqn:Hsub.
  - rewrite (read_shape_float_points _ _ Hacc Hrect Hsub), Hn. reflexivity.
  - rewrite (read_shape_int_points _ _ Hacc Hrect Hsub), Hn. reflexivity.
Qed.

Lemma no_coordinates_empty_witness :
  read_roi sample_no_points = Ok (IntPoints []).
Proof.
  refine (no_coordinates_empty sample_no_points _ _ _ _).
  - split; [reflexivity | simpl; lia].
  - split; [simpl; tauto | reflexivity | reflexivity].
  - discriminate.
  - reflexivity.
Defined.

(** ** Rejected records *)

(** The exceptions that the shape section can raise once the type is
    accepted. *)
Lemma read_shape_errors h f e :
  In (roi_type h) supported_types ->
  0 <= shape_roi_size h ->
  read_shape h f = Err e ->
  e = UnsupportedSubtype (subtype h) \/ e = NameError "file_obj"
  \/ e = UnexpectedEof.
Proof.
  intros Htype Hshape Hrun.
  destruct (Z.eqb_spec (subtype h) 0) as [Hsubtype | Hsubtype].
  - destruct (Z.ltb_spec 0 (shape_roi_size h)) as [Hcomp | Hcomp].
    + right; left. revert Hrun. unfold read_shape.
      rewrite (proj2 (supported_In _) Htype), Hsubtype.
      cbn [negb Z.eqb]. apply Z.ltb_lt in Hcomp. rewrite Hcomp.
      cbv [bind unbound_name raise]. congruence.
    + assert (Hacc : accepted h) by (split; [assumption | assumption | lia]).
      destruct (Z.eq_dec (roi_type h) RoiType.RECT) as [Hrect | Hrect].
      * rewrite (read_shape_rect _ _ Hacc Hrect) in Hrun. discriminate.
      * right; right. destruct (subPixelResolution h) eqn:Hsub.
        -- rewrite (read_shape_float_points _ _ Hacc Hrect Hsub) in Hrun.
           destruct (_ <? _)%nat; congruence.
        -- rewrite (read_shape_int_points _ _ Hacc Hrect Hsub) in Hrun.
           destruct (_ <? _)%nat; congruence.
  - left. revert Hrun. unfold read_shape.
    rewrite (proj2 (supported_In _) Htype).
    apply Z.eqb_neq in Hsubtype. rewrite Hsubtype.
    cbv [negb raise]. congruence.
Qed.

(** C9. For a record with the magic number and a full header: when its
    type is none of [FREEHAND], [TRACED], [POLYGON], [RECT], [POINT],
    [read_roi] raises the unsupported-type error (so returns no
    geometry); when it is one of them, [read_roi] never raises it. *)
Theorem unsupported_roi_type (d : list byte) :
  full_header d ->
  (~ In (roi_type (header_at d)) supported_types ->
   read_roi d = Err (UnsupportedRoiType (roi_type (header_at d))))
  /\ (In (roi_type (header_at d)) supported_types ->
      forall t, read_roi d <> Err (UnsupportedRoiType t)).
Proof.
  intros Hfull. rewrite (read_roi_full_header d Hfull). split.
  - intros Hout. apply supported_not_In in Hout.
    unfold read_shape. rewrite Hout. reflexivity.
  - intros Hin t Hrun.
    destruct (read_shape (header_at d) (skipn 64 d)) as [[g f'] | e] eqn:Hshape;
      [discriminate |].
    injection Hrun as ->.
    apply read_shape_errors in Hshape;
      [| exact Hin | apply u32_at_nonneg].
    destruct Hshape as [H | [H | H]]; discriminate.
Qed.

Lemma unsupported_roi_type_witness :
  read_roi sample_oval = Err (UnsupportedRoiType RoiType.OVAL)
  /\ forall t, read_roi sample_rect <> Err (UnsupportedRoiType t).
Proof.
  split.
  - refine (proj1 (unsupported_roi_type sample_oval _) _).
    + split; [reflexivity | simpl; lia].
    + simpl. intros [H | [H | [H | [H | [H | []]]]]]; discriminate.
  - refine (proj2 (unsupported_roi_type sample_rect _) _).
    + split; [reflexivity | simpl; lia].
    + simpl. tauto.
Defined.

(** ** The version gate *)

(** Below version 222 the flag is never consulted. *)
Lemma old_version_no_subpixel h :
  version h < 222 -> subPixelResolution h = false.
Proof.
  intros Hv. unfold subPixelResolution.
  apply Z.leb_gt in Hv. rewrite Hv. apply andb_false_r.
Qed.

(** The shape section looks at the options only through
    [subPixelResolution]. *)
Lemma read_shape_with_options h o f :
  subPixelResolution (with_options h o) = subPixelResolution h ->
  read_shape (with_options h o) f = read_shape h f.
Proof.
  intros Hsub. unfold read_shape. rewrite Hsub. reflexivity.
Qed.

(** Two records that differ in byte 51 (the low byte of the options)
    have headers that differ in the options only, and the same bytes
    after the header. *)
Lemma header_at_byte51 (pre post : list byte) (b1 b2 : byte) :
  length pre = 51%nat ->
  header_at (pre ++ b2 :: post) =
    with_options (header_at (pre ++ b1 :: post))
      (options (header_at (pre ++ b2 :: post)))
  /\ skipn 64 (pre ++ b2 :: post) = skipn 64 (pre ++ b1 :: post)
  /\ firstn 4 (pre ++ b2 :: post) = firstn 4 (pre ++ b1 :: post).
Proof.
  intros Hpre.
  do 52 (destruct pre as [| ? pre]; try discriminate Hpre).
  repeat split.
Qed.

(** C7. Two records that are identical except that the first has the
    sub-pixel option bit set and the second has it clear, both of a
    version below 222, are decoded alike (same points or same
    exception), with sub-pixel handling off in both. *)
Theorem version_gate_precedes_flag (pre post : list byte) (b1 b2 : byte) :
  length pre = 51%nat ->
  version (header_at (pre ++ b1 :: post)) < 222 ->
  Z.land (options (header_at (pre ++ b1 :: post))) SUB_PIXEL_RESOLUTION <> 0 ->
  Z.land (options (header_at (pre ++ b2 :: post))) SUB_PIXEL_RESOLUTION = 0 ->
  read_roi (pre ++ b1 :: post) = read_roi (pre ++ b2 :: post)
  /\ subPixelResolution (header_at (pre ++ b1 :: post)) = false
  /\ subPixelResolution (header_at (pre ++ b2 :: post)) = false.
Proof.
  intros Hpre Hversion _ _.
  destruct (header_at_byte51 pre post b1 b2 Hpre) as (Hh & Hrest & Hmagic).
  assert (Hsub1 := old_version_no_subpixel _ Hversion).
  assert (Hsub2 : subPixelResolution (header_at (pre ++ b2 :: post)) = false).
  { apply old_version_no_subpixel. rewrite Hh. exact Hversion. }
  split; [| split; assumption].
  rewrite !read_roi_eq, Hmagic, Hrest, !length_app. cbn [length].
  rewrite Hh. rewrite read_shape_with_options; [reflexivity |].
  rewrite <- Hh. congruence.
Qed.

Lemma version_gate_precedes_flag_witness :
  read_roi (sample_old_polygon 128) = read_roi (sample_old_polygon 0)
  /\ subPixelResolution (header_at (sample_old_polygon 128)) = false
  /\ subPixelResolution (header_at (sample_old_polygon 0)) = false.
Proof.
  refine (version_gate_precedes_flag
            (firstn 51 (sample_old_polygon 0))
            (skipn 52 (sample_old_polygon 0)) x80 x00 _ _ _ _).
  - reflexivity.
  - reflexivity.
  - vm_compute. discriminate.
  - reflexivity.
Defined.

(** ** Composite records *)

(** Line 116 evaluates [file_obj], which is neither the parameter
    [fileobj], nor a local of [read_roi], nor a name of the module: every
    record that reaches the composite branch ends in [NameError]. *)
Lemma composite_name_error (d : list byte) :
  full_header d ->
  In (roi_type (header_at d)) supported_types ->
  subtype (header_at d) = 0 ->
  0 < shape_roi_size (header_at d) ->
  read_roi d = Err (NameError "file_obj").
Proof.
  intros Hfull Htype Hsubtype Hshape.
  rewrite (read_roi_full_header d Hfull). unfold read_shape.
  rewrite (proj2 (supported_In _) Htype), Hsubtype.
  apply Z.ltb_lt in Hshape. rewrite Hshape. reflexivity.
Qed.

(** The loop of the composite branch stops: an entry of [rc] moves [i]
    on by one float at least. *)
Lemma rc_lookup_positive t read_len :
  rc_lookup t = Some read_len -> (1 <= read_len)%nat.
Proof.
  unfold rc_lookup, rc. cbn [find fst].
  repeat match goal with
         | |- context [if ?c then _ else _] => destruct c
         end; cbn; intros [= <-]; lia.
Qed.


(** *** What the loop does with straight-line paths *)

Lemma skipn_past_middle {A} (pre : list A) a rest :
  skipn (length pre + 1) (pre ++ a :: rest) = rest.
Proof.
  rewrite skipn_app, skipn_all2 by lia.
  replace (length pre + 1 - length pre)%nat with 1%nat by lia. reflexivity.
Qed.

Lemma walk_point fuel pre p post these_points segments :
  line_opcode p ->
  walk (S fuel) (pre ++ encode_point p ++ post) (length pre)
    these_points segments
  = walk fuel (pre ++ encode_point p ++ post) (length pre + 3)
      (these_points ++ path_rows [p]) segments.
Proof.
  destruct p as [[op x] y]. unfold line_opcode. cbn [fst encode_point app].
  intros Hop. cbn [walk].
  rewrite length_app. cbn [length].
  destruct (Nat.ltb_spec (length pre) (length pre + S (S (S (length post)))));
    [| lia].
  rewrite nth_middle.
  assert (Hrc : rc_lookup (float32_of_Z op) = Some 3%nat)
    by (destruct Hop as [-> | ->]; reflexivity).
  rewrite Hrc. unfold slice. rewrite skipn_past_middle.
  replace (length pre + 3 - (length pre + 1))%nat with 2%nat by lia.
  reflexivity.
Qed.

Lemma walk_close fuel pre post these_points segments :
  walk (S fuel) (pre ++ float32_of_Z 4 :: post) (length pre)
    these_points segments
  = walk fuel (pre ++ float32_of_Z 4 :: post) (length pre + 1)
      [] (segments ++ [these_points]).
Proof.
  cbn [walk]. rewrite length_app. cbn [length].
  destruct (Nat.ltb_spec (length pre) (length pre + S (length post)));
    [| lia].
  rewrite nth_middle.
  change (rc_lookup (float32_of_Z 4)) with (Some 1%nat).
  unfold slice. rewrite skipn_past_middle.
  replace (length pre + 1 - (length pre + 1))%nat with 0%nat by lia.
  reflexivity.
Qed.

Lemma walk_end fuel buffer these_points segments :
  walk fuel buffer (length buffer) these_points segments = Some (Ok segments).
Proof.
  destruct fuel; cbn [walk]; now rewrite Nat.ltb_irrefl.
Qed.

(** One path, anywhere in the buffer: its points join the current
    accumulation, and its closing opcode flushes it. *)
Lemma walk_path pts : forall fuel pre post these_points segments,
  Forall line_opcode pts ->
  walk (length pts + 1 + fuel) (pre ++ encode_path pts ++ post) (length pre)
    these_points segments
  = walk fuel (pre ++ encode_path pts ++ post)
      (length (pre ++ encode_path pts))
      [] (segments ++ [these_points ++ path_rows pts]).
Proof.
  induction pts as [| p pts IH]; intros fuel pre post these_points segments Hops.
  - unfold encode_path. cbn [flat_map app length path_rows map Nat.add].
    rewrite walk_close, app_nil_r, length_app. reflexivity.
  - inversion Hops as [| ? ? Hp Hpts]; subst.
    unfold encode_path in *. cbn [flat_map length Nat.add].
    rewrite <- !app_assoc. rewrite (walk_point _ pre p) by exact Hp.
    specialize (IH fuel (pre ++ encode_point p) post
                  (these_points ++ path_rows [p]) segments Hpts).
    rewrite <- !app_assoc in IH.
    replace (length (pre ++ encode_point p)) with (length pre + 3)%nat in IH
      by (rewrite length_app; destruct p as [[? ?] ?]; reflexivity).
    rewrite IH. reflexivity.
Qed.

Lemma walk_paths paths : forall fuel pre segments,
  Forall (Forall line_opcode) paths ->
  walk (path_steps paths + fuel) (pre ++ flat_map encode_path paths)
    (length pre) [] segments
  = Some (Ok (segments ++ map path_rows paths)).
Proof.
  induction paths as [| pts paths IH]; intros fuel pre segments Hops.
  - cbn [flat_map map]. rewrite !app_nil_r. apply walk_end.
  - inversion Hops as [| ? ? Hpts Hpaths]; subst.
    cbn [flat_map map path_steps fold_right].
    fold (path_steps paths).
    replace (length pts + 1 + path_steps paths + fuel)%nat
      with (length pts + 1 + (path_steps paths + fuel))%nat by lia.
    rewrite walk_path by exact Hpts.
    rewrite app_assoc.
    rewrite IH by exact Hpaths.
    rewrite <- app_assoc. reflexivity.
Qed.

Lemma path_steps_le paths :
  (path_steps paths <= length (flat_map encode_path paths))%nat.
Proof.
  induction paths as [| pts paths IH]; [apply le_n |].
  cbn [path_steps fold_right flat_map]. fold (path_steps paths).
  rewrite length_app. unfold encode_path at 1. rewrite length_app.
  assert (length pts <= length (flat_map encode_point pts))%nat.
  { clear. induction pts as [| [[? ?] ?] pts IH]; [apply le_n |].
    cbn [flat_map encode_point app length]. lia. }
  cbn [length]. lia.
Qed.

(** Had line 116 read from [fileobj], the loop would return one array
    per path, each row reversed from [x, y] to [y, x]: straight-line
    paths closed by the opcode [4] come out as the composite branch
    intends. *)
Lemma composite_segments_line_paths paths f :
  Forall (Forall line_opcode) paths ->
  composite_segments (flat_map encode_path paths) f
  = Ok (map path_rows paths, f).
Proof.
  intros Hops. unfold composite_segments.
  pose proof (path_steps_le paths) as Hle.
  replace (length (flat_map encode_path paths))
    with (path_steps paths
          + (length (flat_map encode_path paths) - path_steps paths))%nat
    by lia.
  pose proof (walk_paths paths
    (length (flat_map encode_path paths) - path_steps paths) [] [] Hops) as H.
  cbn [app length] in H. rewrite H. reflexivity.
Qed.

(** C1, on [sample_composite]: [read_roi] raises [NameError] where two
    point sequences are expected.  The data are two straight-line paths,
    and the loop of the branch, run on the floats of the record, does
    return the two sequences with every pair reversed to (y, x); it is
    never reached. *)
Theorem composite_record_name_error :
  read_roi sample_composite = Err (NameError "file_obj")
  /\ floats_be 11 (skipn 64 sample_composite)
     = flat_map encode_path
         [[(0, float32_of_Z 1, float32_of_Z 2);
           (1, float32_of_Z 3, float32_of_Z 4)];
          [(0, float32_of_Z 5, float32_of_Z 6)]]
  /\ composite_segments (floats_be 11 (skipn 64 sample_composite)) []
     = Ok ([[[float32_of_Z 2; float32_of_Z 1];
             [float32_of_Z 4; float32_of_Z 3]];
            [[float32_of_Z 6; float32_of_Z 5]]], []).
Proof. split; [reflexivity | split; reflexivity]. Qed.

(** * Further properties of the decoder *)

(** ** The shape section in closed form *)

Lemma read_shape_by_offsets h f :
  0 <= shape_roi_size h ->
  read_shape h f =
    if negb (supported (roi_type h)) then Err (UnsupportedRoiType (roi_type h)) else
    if negb (subtype h =? 0) then Err (UnsupportedSubtype (subtype h)) else
    if 0 <? shape_roi_size h then Err (NameError "file_obj") else
    if (length f <? payload_size h)%nat then Err UnexpectedEof
    else Ok (shape_points h f, skipn (payload_size h) f).
Proof.
  intros Hshape.
  destruct (supported (roi_type h)) eqn:Htype; cbn [negb];
    [| unfold read_shape; rewrite Htype; reflexivity].
  destruct (Z.eqb_spec (subtype h) 0) as [Hsubtype | Hsubtype]; cbn [negb].
  2:{ unfold read_shape. rewrite Htype.
      apply Z.eqb_neq in Hsubtype. rewrite Hsubtype. reflexivity. }
  destruct (Z.ltb_spec 0 (shape_roi_size h)) as [Hcomp | Hcomp].
  { unfold read_shape. rewrite Htype, Hsubtype.
    apply Z.ltb_lt in Hcomp. rewrite Hcomp. reflexivity. }
  assert (Hacc : accepted h)
    by (split; [now apply supported_In | assumption | lia]).
  unfold payload_size, shape_points.
  destruct (Z.eqb_spec (roi_type h) RoiType.RECT) as [Hrect | Hrect].
  - rewrite (read_shape_rect _ _ Hacc Hrect). reflexivity.
  - unfold list_points. destruct (subPixelResolution h) eqn:Hsub.
    + apply (read_shape_float_points _ _ Hacc Hrect Hsub).
    + apply (read_shape_int_points _ _ Hacc Hrect Hsub).
Qed.

Lemma decode_returned d : read_roi d = returned (decode d).
Proof. reflexivity. Qed.

(** The file object after the header and the shape section. *)
Lemma decode_eq d :
  decode d =
    if bytes_eqb (firstn 4 d) Iout then
      if (length d <? 64)%nat then Err UnexpectedEof
      else read_shape (header_at d) (skipn 64 d)
    else Err BadMagic.
Proof.
  unfold decode, bind. rewrite read_header_eq.
  destruct (bytes_eqb (firstn 4 d) Iout); [| reflexivity].
  destruct (length d <? 64)%nat; reflexivity.
Qed.

Lemma header_shape_nonneg d : 0 <= shape_roi_size (header_at d).
Proof. apply u32_at_nonneg. Qed.

Lemma read_roi_outcome d : outcome d (read_roi d).
Proof.
  rewrite read_roi_eq.
  destruct (bytes_eqb (firstn 4 d) Iout) eqn:Hmagic.
  2:{ apply outcome_magic. intros H. apply bytes_eqb_eq in H. congruence. }
  apply bytes_eqb_eq in Hmagic.
  destruct (Nat.ltb_spec (length d) 64) as [Hlen | Hlen];
    [now apply outcome_header |].
  assert (Hfull : full_header d) by (split; assumption).
  rewrite (read_shape_by_offsets _ _ (header_shape_nonneg d)).
  destruct (supported (roi_type (header_at d))) eqn:Htype; cbn [negb returned].
  2:{ apply outcome_type; [exact Hfull | now apply supported_not_In]. }
  apply supported_In in Htype.
  destruct (Z.eqb_spec (subtype (header_at d)) 0) as [Hsubtype | Hsubtype];
    cbn [negb returned]; [| now apply outcome_subtype].
  destruct (Z.ltb_spec 0 (shape_roi_size (header_at d))) as [Hcomp | Hcomp];
    cbn [returned]; [now apply outcome_composite |].
  assert (Hacc : accepted (header_at d)).
  { split; [assumption | assumption |].
    pose proof (header_shape_nonneg d). lia. }
  rewrite length_skipn.
  destruct (Nat.ltb_spec (length d - 64) (payload_size (header_at d)));
    cbn [returned].
  - apply outcome_payload; [assumption | assumption | lia].
  - apply outcome_points; [assumption | assumption | lia].
Qed.

Lemma read_roi_Ok d g :
  read_roi d = Ok g ->
  full_header d /\ accepted (header_at d)
  /\ (64 + payload_size (header_at d) <= length d)%nat
  /\ g = shape_points (header_at d) (skipn 64 d).
Proof.
  intros Hrun. pose proof (read_roi_outcome d) as Ho.
  destruct Ho; try discriminate Hrun.
  injection Hrun as <-. auto.
Qed.

(** ** What [read_roi] accepts and what it raises *)

(** X1. [read_roi] raises the magic-number error exactly on the inputs
    that do not start with [b'Iout'], whatever their length and their
    other bytes. *)
Theorem bad_magic_iff (d : list byte) :
  read_roi d = Err BadMagic <-> firstn 4 d <> Iout.
Proof.
  split.
  - intros Hrun. pose proof (read_roi_outcome d) as Ho.
    destruct Ho; try discriminate Hrun. assumption.
  - intros Hmagic. rewrite read_roi_eq.
    destruct (bytes_eqb (firstn 4 d) Iout) eqn:H; [| reflexivity].
    apply bytes_eqb_eq in H. contradiction.
Qed.

(** X2. A record with a full header and a supported type whose subtype
    is not 0 is rejected with the unsupported-subtype error carrying the
    subtype, before the composite size or any coordinate is looked at. *)
Theorem unsupported_subtype (d : list byte) :
  full_header d ->
  In (roi_type (header_at d)) supported_types ->
  subtype (header_at d) <> 0 ->
  read_roi d = Err (UnsupportedSubtype (subtype (header_at d))).
Proof.
  intros Hfull Htype Hsubtype.
  rewrite (read_roi_full_header d Hfull).
  rewrite (read_shape_by_offsets _ _ (header_shape_nonneg d)).
  rewrite (proj2 (supported_In _) Htype).
  apply Z.eqb_neq in Hsubtype. rewrite Hsubtype. reflexivity.
Qed.

Lemma unsupported_subtype_witness :
  read_roi sample_subtype = Err (UnsupportedSubtype 1).
Proof.
  refine (unsupported_subtype sample_subtype _ _ _).
  - split; [reflexivity | simpl; lia].
  - simpl. tauto.
  - discriminate.
Defined.





(** X4. [read_roi] returns a result exactly when the input starts with
    the magic number, holds the 64 bytes of the header, has a supported
    type, subtype 0 and composite size 0, and holds the coordinate bytes
    that the header announces; the result is then the one that the
    offsets of the record give. *)
Theorem success_iff_valid (d : list byte) (g : geometry) :
  read_roi d = Ok g <->
  full_header d /\ accepted (header_at d)
  /\ (64 + payload_size (header_at d) <= length d)%nat
  /\ g = shape_points (header_at d) (skipn 64 d).
Proof.
  split.
  - apply read_roi_Ok.
  - intros (Hfull & Hacc & Hlen & ->).
    rewrite (read_roi_full_header d Hfull).
    rewrite (read_shape_by_offsets _ _ (header_shape_nonneg d)).
    rewrite (proj2 (supported_In _) (accepted_type _ Hacc)).
    rewrite (accepted_subtype _ Hacc), (accepted_not_composite _ Hacc).
    cbn [negb Z.eqb Z.ltb Z.compare]. rewrite length_skipn.
    destruct (Nat.ltb_spec (length d - 64) (payload_size (header_at d)));
      [lia | reflexivity].
Qed.

(** X5. The exceptions of [read_roi] are the magic-number error, the
    end-of-file error, the unsupported-type error carrying byte 6 of
    the record, the unsupported-subtype error carrying the 16-bit word
    at byte 48, and the [NameError] of the composite branch; the lookup
    and buffer errors of the composite loop are never raised. *)
Theorem errors_exhaustive (d : list byte) (e : error) :
  read_roi d = Err e ->
  e = BadMagic \/ e = UnexpectedEof
  \/ e = UnsupportedRoiType (byte_at d 6)
  \/ e = UnsupportedSubtype (u16_at d 48)
  \/ e = NameError "file_obj".
Proof.
  intros Hrun. pose proof (read_roi_outcome d) as Ho.
  destruct Ho; try discriminate Hrun; injection Hrun as <-; tauto.
Qed.

Lemma errors_exhaustive_witness :
  UnsupportedRoiType 2 = BadMagic \/ UnsupportedRoiType 2 = UnexpectedEof
  \/ UnsupportedRoiType 2 = UnsupportedRoiType (byte_at sample_oval 6)
  \/ UnsupportedRoiType 2 = UnsupportedSubtype (u16_at sample_oval 48)
  \/ UnsupportedRoiType 2 = NameError "file_obj".
Proof.
  refine (errors_exhaustive sample_oval (UnsupportedRoiType 2) _).
  reflexivity.
Defined.

(** X6. [read_roi] computes, on every input, what the decoder written
    on the offsets of the record computes: the same points or the same
    exception. *)
Theorem read_roi_refines (d : list byte) :
  read_roi d = read_roi_by_offsets d.
Proof.
  rewrite read_roi_eq. unfold read_roi_by_offsets.
  destruct (bytes_eqb (firstn 4 d) Iout); [| reflexivity].
  destruct (Nat.ltb_spec (length d) 64) as [Hlen | Hlen]; [reflexivity |].
  rewrite (read_shape_by_offsets _ _ (header_shape_nonneg d)). cbv zeta.
  destruct (negb (supported (roi_type (header_at d)))); [reflexivity |].
  destruct (negb (subtype (header_at d) =? 0)); [reflexivity |].
  destruct (0 <? shape_roi_size (header_at d)); [reflexivity |].
  rewrite length_skipn.
  destruct (Nat.ltb_spec (length d - 64) (payload_size (header_at d)));
    destruct (Nat.ltb_spec (length d) (64 + payload_size (header_at d)));
    try lia; reflexivity.
Qed.

(** X7. A result of [read_roi] is never a list of segments; it has 4
    rows for a rectangle and [n_coordinates] rows otherwise, and it is
    an array of [float32] exactly when the sub-pixel option bit is set
    and the version is at least 222. *)
Theorem success_shape (d : list byte) (g : geometry) :
  read_roi d = Ok g ->
  (forall segments, g <> Segments segments)
  /\ rows g = (if roi_type (header_at d) =? RoiType.RECT then 4%nat
               else Z.to_nat (n_coordinates (header_at d)))
  /\ (is_float g = true <->
      Z.land (options (header_at d)) SUB_PIXEL_RESOLUTION <> 0
      /\ 222 <= version (header_at d)).
Proof.
  intros Hrun. apply read_roi_Ok in Hrun.
  destruct Hrun as (Hfull & Hacc & Hlen & ->).
  assert (Hsub : subPixelResolution (header_at d) = true <->
    Z.land (options (header_at d)) SUB_PIXEL_RESOLUTION <> 0
    /\ 222 <= version (header_at d)).
  { unfold subPixelResolution.
    rewrite andb_true_iff, negb_true_iff, Z.eqb_neq, Z.leb_le. reflexivity. }
  rewrite <- Hsub. unfold shape_points, rect_points, list_points.
  destruct (roi_type (header_at d) =? RoiType.RECT);
    destruct (subPixelResolution (header_at d)); cbn [rows is_float length];
    rewrite ?length_combine, ?length_map, ?length_seq, ?Nat.min_id;
    (split; [discriminate | split; [reflexivity |]]);
    split; congruence.
Qed.

Lemma success_shape_witness :
  (forall segments,
      IntPoints [(13, 21); (9, 22)] <> Segments segments)
  /\ rows (IntPoints [(13, 21); (9, 22)]) =
       (if roi_type (header_at sample_polygon) =? RoiType.RECT then 4%nat
        else Z.to_nat (n_coordinates (header_at sample_polygon)))
  /\ (is_float (IntPoints [(13, 21); (9, 22)]) = true <->
      Z.land (options (header_at sample_polygon)) SUB_PIXEL_RESOLUTION <> 0
      /\ 222 <= version (header_at sample_polygon)).
Proof.
  refine (success_shape sample_polygon (IntPoints [(13, 21); (9, 22)]) _).
  reflexivity.
Defined.

(** X8. Every coordinate of an integer result of [read_roi] lies in the
    range of [int16], from -32768 to 32767. *)
Theorem int_points_in_range (d : list byte) (points : list (Z * Z)) :
  read_roi d = Ok (IntPoints points) ->
  forall row column, In (row, column) points ->
    -32768 <= row < 32768 /\ -32768 <= column < 32768.
Proof.
  intros Hrun. apply read_roi_Ok in Hrun.
  destruct Hrun as (Hfull & Hacc & Hlen & Hg).
  revert Hg. unfold shape_points, rect_points, list_points.
  destruct (roi_type (header_at d) =? RoiType.RECT);
    destruct (subPixelResolution (header_at d)); try discriminate;
    intros [= ->] row column Hin.
  - cbn [In] in Hin.
    destruct Hin as [H | [H | [H | [H | []]]]]; injection H as <- <-;
      split; apply int16_range.
  - split.
    + apply in_combine_l, in_map_iff in Hin.
      destruct Hin as [i [<- _]]. apply int16_range.
    + apply in_combine_r, in_map_iff in Hin.
      destruct Hin as [i [<- _]]. apply int16_range.
Qed.

Lemma int_points_in_range_witness :
  -32768 <= 9 < 32768 /\ -32768 <= 22 < 32768.
Proof.
  refine (int_points_in_range sample_polygon [(13, 21); (9, 22)] _ 9 22 _).
  - reflexivity.
  - simpl. tauto.
Defined.

(** ** Bytes that do not matter *)

Lemma outcome_sound d r : outcome d r -> read_roi d = r.
Proof.
  intros Ho. rewrite read_roi_eq.
  destruct Ho as [Hmagic | Hmagic Hlen | Hfull Htype | Hfull Htype Hsubtype
                 | Hfull Htype Hsubtype Hcomp | Hfull Hacc Hlen
                 | Hfull Hacc Hlen].
  - destruct (bytes_eqb (firstn 4 d) Iout) eqn:H; [| reflexivity].
    apply bytes_eqb_eq in H. contradiction.
  - apply bytes_eqb_eq in Hmagic. rewrite Hmagic.
    destruct (Nat.ltb_spec (length d) 64); [reflexivity | lia].
  - rewrite <- read_roi_eq, (read_roi_full_header d Hfull).
    rewrite (read_shape_by_offsets _ _ (header_shape_nonneg d)).
    apply supported_not_In in Htype. rewrite Htype. reflexivity.
  - rewrite <- read_roi_eq, (read_roi_full_header d Hfull).
    rewrite (read_shape_by_offsets _ _ (header_shape_nonneg d)).
    rewrite (proj2 (supported_In _) Htype).
    apply Z.eqb_neq in Hsubtype. rewrite Hsubtype. reflexivity.
  - rewrite <- read_roi_eq, (read_roi_full_header d Hfull).
    rewrite (read_shape_by_offsets _ _ (header_shape_nonneg d)).
    rewrite (proj2 (supported_In _) Htype), Hsubtype.
    apply Z.ltb_lt in Hcomp. rewrite Hcomp. reflexivity.
  - pose proof (proj2 Hfull) as H64.
    rewrite <- read_roi_eq, (read_roi_full_header d Hfull).
    rewrite (read_shape_by_offsets _ _ (header_shape_nonneg d)).
    rewrite (proj2 (supported_In _) (accepted_type _ Hacc)).
    rewrite (accepted_subtype _ Hacc), (accepted_not_composite _ Hacc).
    cbn [negb Z.eqb Z.ltb Z.compare]. rewrite length_skipn.
    destruct (Nat.ltb_spec (length d - 64) (payload_size (header_at d)));
      [reflexivity | lia].
  - rewrite <- read_roi_eq, (read_roi_full_header d Hfull).
    rewrite (read_shape_by_offsets _ _ (header_shape_nonneg d)).
    rewrite (proj2 (supported_In _) (accepted_type _ Hacc)).
    rewrite (accepted_subtype _ Hacc), (accepted_not_composite _ Hacc).
    cbn [negb Z.eqb Z.ltb Z.compare]. rewrite length_skipn.
    destruct (Nat.ltb_spec (length d - 64) (payload_size (header_at d)));
      [lia | reflexivity].
Qed.

Lemma firstn_app_long {A} k (d e : list A) :
  (k <= length d)%nat -> firstn k (d ++ e) = firstn k d.
Proof.
  intros Hk. rewrite firstn_app.
  replace (k - length d)%nat with 0%nat by lia.
  cbn [firstn]. apply app_nil_r.
Qed.

Lemma skipn_app_long {A} k (d e : list A) :
  (k <= length d)%nat -> skipn k (d ++ e) = skipn k d ++ e.
Proof.
  intros Hk. rewrite skipn_app.
  replace (k - length d)%nat with 0%nat by lia. reflexivity.
Qed.

Lemma header_at_app d e :
  (64 <= length d)%nat -> header_at (d ++ e) = header_at d.
Proof.
  intros Hlen. rewrite <- (header_at_firstn (d ++ e)), firstn_app_long by exact Hlen.
  apply header_at_firstn.
Qed.

Lemma byte_at_app_l (p x : list byte) off :
  (off < length p)%nat -> byte_at (p ++ x) off = byte_at p off.
Proof. intros Hoff. unfold byte_at. now rewrite app_nth1. Qed.

Lemma u16_at_app_l (p x : list byte) off :
  (off + 1 < length p)%nat -> u16_at (p ++ x) off = u16_at p off.
Proof.
  intros Hoff. unfold u16_at. rewrite !byte_at_app_l by lia. reflexivity.
Qed.

Lemma f32_at_app_l (p x : list byte) off :
  (off + 3 < length p)%nat -> f32_at (p ++ x) off = f32_at p off.
Proof.
  intros Hoff. unfold f32_at, u32_at. rewrite !u16_at_app_l by lia.
  reflexivity.
Qed.

Lemma shape_points_app h f e :
  (payload_size h <= length f)%nat ->
  shape_points h (f ++ e) = shape_points h f.
Proof.
  unfold payload_size, shape_points, list_points.
  destruct (roi_type h =? RoiType.RECT); [reflexivity |].
  destruct (subPixelResolution h); intros Hlen; do 2 f_equal;
    apply map_ext_in; intros i Hi; apply in_seq in Hi.
  - apply f32_at_app_l. lia.
  - apply f32_at_app_l. lia.
  - rewrite u16_at_app_l by lia. reflexivity.
  - rewrite u16_at_app_l by lia. reflexivity.
Qed.

(** X9. Bytes that follow a record are ignored: appending anything to
    an input of at least 4 bytes on which [read_roi] does not raise the
    end-of-file error leaves the points, or the exception, unchanged. *)
Theorem trailing_bytes_ignored (d extra : list byte) :
  (4 <= length d)%nat ->
  read_roi d <> Err UnexpectedEof ->
  read_roi (d ++ extra) = read_roi d.
Proof.
  intros H4 Hrun. apply outcome_sound.
  pose proof (read_roi_outcome d) as Ho. revert Hrun.
  destruct Ho as [Hmagic | Hmagic Hlen | Hfull Htype | Hfull Htype Hsubtype
                 | Hfull Htype Hsubtype Hcomp | Hfull Hacc Hlen
                 | Hfull Hacc Hlen]; intros Hrun; try congruence.
  - apply outcome_magic. now rewrite firstn_app_long.
  - pose proof (proj2 Hfull) as H64.
    rewrite <- (header_at_app d extra H64). apply outcome_type.
    + split; [rewrite firstn_app_long by lia; apply Hfull
             | rewrite length_app; lia].
    + now rewrite header_at_app.
  - pose proof (proj2 Hfull) as H64.
    rewrite <- (header_at_app d extra H64). apply outcome_subtype.
    + split; [rewrite firstn_app_long by lia; apply Hfull
             | rewrite length_app; lia].
    + now rewrite header_at_app.
    + now rewrite header_at_app.
  - pose proof (proj2 Hfull) as H64. apply outcome_composite.
    + split; [rewrite firstn_app_long by lia; apply Hfull
             | rewrite length_app; lia].
    + now rewrite header_at_app.
    + now rewrite header_at_app.
    + now rewrite header_at_app.
  - pose proof (proj2 Hfull) as H64.
    rewrite <- (shape_points_app _ _ extra)
      by (rewrite length_skipn; lia).
    rewrite <- (skipn_app_long 64 d extra H64).
    rewrite <- (header_at_app d extra H64). apply outcome_points.
    + split; [rewrite firstn_app_long by lia; apply Hfull
             | rewrite length_app; lia].
    + now rewrite header_at_app.
    + rewrite header_at_app, length_app by exact H64. lia.
Qed.

Lemma trailing_bytes_ignored_witness :
  read_roi (sample_polygon ++ bytes [1; 2; 3]) = read_roi sample_polygon.
Proof.
  refine (trailing_bytes_ignored sample_polygon (bytes [1; 2; 3]) _ _).
  - simpl. lia.
  - discriminate.
Defined.

(** The sub-pixel bit of the options lies in their low byte. *)
Lemma land_shiftl8_128 a b :
  Z.land (Z.lor (Z.shiftl a 8) b) 128 = Z.land b 128.
Proof.
  rewrite Z.land_lor_distr_l.
  replace (Z.land (Z.shiftl a 8) 128) with 0; [reflexivity |].
  symmetry. apply Z.bits_inj'. intros n Hn.
  rewrite Z.land_spec, Z.bits_0.
  destruct (Z.ltb_spec n 8) as [Hlow | Hhigh].
  - now rewrite Z.shiftl_spec_low.
  - change 128 with (2 ^ 7). rewrite Z.pow2_bits_false by lia.
    apply andb_false_r.
Qed.

(** The shape section uses twelve fields of the header and, of the
    options, the sub-pixel decision only. *)
Lemma read_shape_used_fields h h' f :
  roi_type h = roi_type h' -> subtype h = subtype h' ->
  shape_roi_size h = shape_roi_size h' ->
  top h = top h' -> left h = left h' ->
  bottom h = bottom h' -> right h = right h' ->
  n_coordinates h = n_coordinates h' ->
  x1 h = x1 h' -> y1 h = y1 h' -> x2 h = x2 h' -> y2 h = y2 h' ->
  subPixelResolution h = subPixelResolution h' ->
  read_shape h f = read_shape h' f.
Proof.
  intros Ht Hs Hc Htop Hleft Hbottom Hright Hn Hx1 Hy1 Hx2 Hy2 Hsub.
  unfold read_shape.
  rewrite Ht, Hs, Hc, Htop, Hleft, Hbottom, Hright, Hn, Hx1, Hy1, Hx2, Hy2, Hsub.
  reflexivity.
Qed.

Lemma firstn_nth_ext (a b : list byte) n :
  length a = length b ->
  (forall k, (k < n)%nat -> nth k a x00 = nth k b x00) ->
  firstn n a = firstn n b.
Proof.
  intros Hlen Hsame. apply (nth_ext _ _ x00 x00).
  - rewrite !length_firstn. lia.
  - intros k Hk. rewrite length_firstn in Hk. rewrite !nth_firstn.
    destruct (Nat.ltb_spec k n); [apply Hsame; lia | reflexivity].
Qed.

Lemma skipn_nth_ext (a b : list byte) n :
  length a = length b ->
  (forall k, (n <= k)%nat -> nth k a x00 = nth k b x00) ->
  skipn n a = skipn n b.
Proof.
  intros Hlen Hsame. apply (nth_ext _ _ x00 x00).
  - rewrite !length_skipn. lia.
  - intros k _. rewrite !nth_skipn. apply Hsame. lia.
Qed.

(** X10. The result of [read_roi] does not depend on the header bytes
    that it reads without using them: two inputs of the same length
    that agree outside the offsets 7, 34-35 (stroke width), 40-47
    (colours), 50 (high byte of the options) and 52-63 (arrow style
    and size, arc size, position, second-header offset) yield the same
    points or the same exception. *)
Theorem unused_header_bytes (d1 d2 : list byte) :
  length d1 = length d2 ->
  (forall k, ~ unused_offset k -> nth k d1 x00 = nth k d2 x00) ->
  read_roi d1 = read_roi d2.
Proof.
  intros Hlen Hsame.
  assert (Hb : forall k, ~ unused_offset k -> byte_at d1 k = byte_at d2 k).
  { intros k Hk. unfold byte_at. now rewrite Hsame. }
  assert (Hmagic : firstn 4 d1 = firstn 4 d2).
  { apply firstn_nth_ext; [exact Hlen |].
    intros k Hk. apply Hsame. unfold unused_offset. lia. }
  assert (Hrest : skipn 64 d1 = skipn 64 d2).
  { apply skipn_nth_ext; [exact Hlen |].
    intros k Hk. apply Hsame. unfold unused_offset. lia. }
  rewrite !read_roi_eq, Hmagic, Hrest, Hlen.
  destruct (bytes_eqb (firstn 4 d2) Iout); [| reflexivity].
  destruct (length d2 <? 64)%nat; [reflexivity |].
  f_equal.
  apply read_shape_used_fields;
    try (cbn [header_at roi_type subtype shape_roi_size top left bottom
               right n_coordinates x1 y1 x2 y2];
         unfold f32_at, u32_at, u16_at;
         rewrite ?Nat.add_0_r;
         repeat (rewrite Hb by (unfold unused_offset; simpl; lia));
         reflexivity).
  unfold subPixelResolution.
  cbn [header_at options version]. unfold u16_at at 1 3.
  rewrite !land_shiftl8_128.
  unfold u16_at.
  repeat (rewrite Hb by (unfold unused_offset; simpl; lia)).
  reflexivity.
Qed.

Lemma unused_header_bytes_witness :
  read_roi sample_polygon = read_roi sample_polygon_decorated.
Proof.
  refine (unused_header_bytes sample_polygon sample_polygon_decorated _ _).
  - reflexivity.
  - intros k Hk.
    do 72 (destruct k as [| k];
           [first [reflexivity
                  | exfalso; apply Hk; unfold unused_offset; lia] |]).
    destruct k; reflexivity.
Defined.

(** ** The file object after a record *)

(** X11. When the header and the shape section succeed, the file
    object is left right behind the record: 64 bytes on for a
    rectangle, [64 + 4 * n_coordinates] for integer coordinates and
    [64 + 12 * n_coordinates] for sub-pixel coordinates. *)
Theorem decode_position (d : list byte) (g : geometry) (rest : fileobj) :
  decode d = Ok (g, rest) ->
  read_roi d = Ok g
  /\ rest = skipn (64 + payload_size (header_at d)) d.
Proof.
  intros Hrun. split; [now rewrite decode_returned, Hrun |].
  revert Hrun. rewrite decode_eq.
  destruct (bytes_eqb (firstn 4 d) Iout); [| discriminate].
  destruct (length d <? 64)%nat; [discriminate |].
  rewrite (read_shape_by_offsets _ _ (header_shape_nonneg d)).
  destruct (negb (supported (roi_type (header_at d)))); [discriminate |].
  destruct (negb (subtype (header_at d) =? 0)); [discriminate |].
  destruct (0 <? shape_roi_size (header_at d)); [discriminate |].
  destruct (_ <? _)%nat; [discriminate |].
  remember (skipn 64 d) as f eqn:Hf.
  intros [= _ <-]. subst f. rewrite skipn_skipn. f_equal. lia.
Qed.

Lemma decode_position_witness :
  read_roi (sample_polygon ++ bytes [1; 2; 3])
    = Ok (IntPoints [(13, 21); (9, 22)])
  /\ bytes [1; 2; 3]
     = skipn (64 + payload_size (header_at (sample_polygon ++ bytes [1; 2; 3])))
         (sample_polygon ++ bytes [1; 2; 3]).
Proof.
  refine (decode_position (sample_polygon ++ bytes [1; 2; 3])
            (IntPoints [(13, 21); (9, 22)]) (bytes [1; 2; 3]) _).
  reflexivity.
Defined.

(** X12. Records can be read one after the other from one file object:
    when [read_roi] decodes [d] and [d] is exactly as long as its header
    announces, decoding [d] followed by further bytes returns the same
    points and leaves exactly the further bytes. *)
Theorem decode_then_rest (d more : list byte) (g : geometry) :
  read_roi d = Ok g ->
  length d = (64 + payload_size (header_at d))%nat ->
  decode (d ++ more) = Ok (g, more).
Proof.
  intros Hrun Hlen. apply read_roi_Ok in Hrun.
  destruct Hrun as (Hfull & Hacc & _ & ->).
  pose proof (proj2 Hfull) as H64.
  rewrite decode_eq, firstn_app_long by lia.
  rewrite (proj2 (bytes_eqb_eq _ _) (proj1 Hfull)).
  rewrite length_app.
  destruct (Nat.ltb_spec (length d + length more) 64); [lia |].
  rewrite header_at_app, skipn_app_long by exact H64.
  rewrite (read_shape_by_offsets _ _ (header_shape_nonneg d)).
  rewrite (proj2 (supported_In _) (accepted_type _ Hacc)).
  rewrite (accepted_subtype _ Hacc), (accepted_not_composite _ Hacc).
  cbn [negb Z.eqb Z.ltb Z.compare].
  rewrite length_app, length_skipn.
  destruct (Nat.ltb_spec (length d - 64 + length more)
              (payload_size (header_at d))); [lia |].
  rewrite shape_points_app by (rewrite length_skipn; lia).
  do 2 f_equal.
  rewrite skipn_app, skipn_all2 by (rewrite length_skipn; lia).
  rewrite length_skipn.
  replace (payload_size (header_at d) - (length d - 64))%nat with 0%nat by lia.
  reflexivity.
Qed.

Lemma decode_then_rest_witness :
  decode (sample_polygon ++ sample_rect)
    = Ok (IntPoints [(13, 21); (9, 22)], sample_rect).
Proof.
  refine (decode_then_rest sample_polygon sample_rect
            (IntPoints [(13, 21); (9, 22)]) _ _).
  - reflexivity.
  - reflexivity.
Defined.

(** ** The nested readers *)

Lemma lor_shiftl_add a b k :
  0 <= k -> 0 <= b < 2 ^ k -> Z.lor (Z.shiftl a k) b = a * 2 ^ k + b.
Proof.
  intros Hk Hb.
  assert (Hland : Z.land (Z.shiftl a k) b = 0).
  { apply Z.bits_inj'. intros n Hn. rewrite Z.land_spec, Z.bits_0.
    destruct (Z.ltb_spec n k) as [Hlow | Hhigh].
    - now rewrite Z.shiftl_spec_low.
    - destruct (Z.eq_dec b 0) as [-> | Hb0].
      + rewrite Z.bits_0. apply andb_false_r.
      + assert (Hlog : Z.log2 b < n).
        { apply Z.log2_lt_pow2; [lia |].
          apply Z.lt_le_trans with (2 ^ k); [lia |].
          apply Z.pow_le_mono_r; lia. }
        rewrite (Z.bits_above_log2 b n) by lia.
        apply andb_false_r. }
  pose proof (Z.add_lor_land (Z.shiftl a k) b) as Hadd.
  rewrite Hland in Hadd. rewrite <- Z.shiftl_mul_pow2 by exact Hk. lia.
Qed.

Lemma get16_eq f :
  get16 f = match f with
            | b0 :: b1 :: rest => Ok (256 * ord b0 + ord b1, rest)
            | _ => Err UnexpectedEof
            end.
Proof.
  destruct f as [| b0 [| b1 rest]]; try reflexivity.
  cbv [get16 get8 bind read ret firstn skipn].
  rewrite (lor_shiftl_add (ord b0) (ord b1) 8) by (try apply ord_range; lia).
  do 2 f_equal. lia.
Qed.

Lemma get32_eq f :
  get32 f = match f with
            | b0 :: b1 :: b2 :: b3 :: rest =>
                Ok (16777216 * ord b0 + 65536 * ord b1 + 256 * ord b2 + ord b3,
                    rest)
            | _ => Err UnexpectedEof
            end.
Proof.
  destruct f as [| b0 [| b1 [| b2 [| b3 rest]]]]; try reflexivity.
  cbv [get32 get16 get8 bind read ret firstn skipn].
  pose proof (ord_range b0). pose proof (ord_range b1).
  pose proof (ord_range b2). pose proof (ord_range b3).
  rewrite (lor_shiftl_add (ord b0) (ord b1) 8) by lia.
  rewrite (lor_shiftl_add (ord b2) (ord b3) 8) by lia.
  rewrite (lor_shiftl_add _ _ 16) by lia.
  do 2 f_equal. lia.
Qed.

(** X13. [get16] takes two bytes and returns them as a big-endian
    unsigned number, [256 * b0 + b1], below 65536; on fewer than two
    bytes it raises the end-of-file error. *)
Theorem get16_big_endian (f : fileobj) :
  get16 f = match f with
            | b0 :: b1 :: rest => Ok (256 * ord b0 + ord b1, rest)
            | _ => Err UnexpectedEof
            end
  /\ forall v rest, get16 f = Ok (v, rest) -> 0 <= v < 65536.
Proof.
  split; [apply get16_eq |].
  intros v rest. rewrite get16_eq.
  destruct f as [| b0 [| b1 f]]; try discriminate.
  intros Hv. assert (v = 256 * ord b0 + ord b1) by congruence. subst v.
  pose proof (ord_range b0). pose proof (ord_range b1). lia.
Qed.

(** X14. [get32] takes four bytes and returns them as a big-endian
    unsigned number below 2^32; on fewer than four bytes it raises the
    end-of-file error. *)
Theorem get32_big_endian (f : fileobj) :
  get32 f = match f with
            | b0 :: b1 :: b2 :: b3 :: rest =>
                Ok (16777216 * ord b0 + 65536 * ord b1 + 256 * ord b2 + ord b3,
                    rest)
            | _ => Err UnexpectedEof
            end
  /\ forall v rest, get32 f = Ok (v, rest) -> 0 <= v < 4294967296.
Proof.
  split; [apply get32_eq |].
  intros v rest. rewrite get32_eq.
  destruct f as [| b0 [| b1 [| b2 [| b3 f]]]]; try discriminate.
  intros Hv.
  assert (v = 16777216 * ord b0 + 65536 * ord b1 + 256 * ord b2 + ord b3)
    by congruence.
  subst v.
  pose proof (ord_range b0). pose proof (ord_range b1).
  pose proof (ord_range b2). pose proof (ord_range b3). lia.
Qed.

Lemma view_float32_int32 w : view_float32 (int32 w) = view_float32 w.
Proof.
  unfold view_float32, int32.
  replace ((w + 2147483648) mod 4294967296 - 2147483648)
    with ((w + 2147483648) mod 4294967296 + (-1) * 2147483648 ) by lia.
  rewrite Z.add_mod_idemp_l by lia.
  replace (w + 2147483648 + -1 * 2147483648) with w by lia.
  reflexivity.
Qed.

(** X15. [getfloat] is a bit cast: it takes four bytes and returns the
    binary32 value whose bit pattern is the big-endian word they form;
    the passage through [np.int32] changes nothing.  On fewer than four
    bytes it raises the end-of-file error. *)
Theorem getfloat_bit_cast (f : fileobj) :
  getfloat f =
    match f with
    | b0 :: b1 :: b2 :: b3 :: rest =>
        Ok (view_float32
              (16777216 * ord b0 + 65536 * ord b1 + 256 * ord b2 + ord b3),
            rest)
    | _ => Err UnexpectedEof
    end.
Proof.
  unfold getfloat, bind. rewrite get32_eq.
  destruct f as [| b0 [| b1 [| b2 [| b3 rest]]]]; try reflexivity.
  unfold ret. now rewrite view_float32_int32.
Qed.

(** The number of binary digits of a mantissa. *)
Lemma digits2_pos_bounds p :
  2 ^ (Zpos (digits2_pos p) - 1) <= Zpos p < 2 ^ Zpos (digits2_pos p).
Proof.
  induction p as [p IH | p IH |]; cbn [digits2_pos].
  - rewrite Pos2Z.inj_succ.
    replace (Z.succ (Zpos (digits2_pos p)) - 1)
      with (Z.succ (Zpos (digits2_pos p) - 1)) by lia.
    rewrite !Z.pow_succ_r by lia. lia.
  - rewrite Pos2Z.inj_succ.
    replace (Z.succ (Zpos (digits2_pos p)) - 1)
      with (Z.succ (Zpos (digits2_pos p) - 1)) by lia.
    rewrite !Z.pow_succ_r by lia. lia.
  - simpl. lia.
Qed.

Lemma digits2_pos_le p n :
  0 <= n -> Zpos p < 2 ^ n -> Zpos (digits2_pos p) <= n.
Proof.
  intros Hn Hp. destruct (digits2_pos_bounds p) as [Hlow _].
  assert (H : Zpos (digits2_pos p) - 1 < n).
  { apply (Z.pow_lt_mono_r_iff 2); lia. }
  lia.
Qed.

Lemma digits2_pos_gt p n :
  0 <= n -> 2 ^ n <= Zpos p -> n < Zpos (digits2_pos p).
Proof.
  intros Hn Hp. destruct (digits2_pos_bounds p) as [_ Hhigh].
  apply (Z.pow_lt_mono_r_iff 2); lia.
Qed.

Lemma view_float32_valid v : valid_binary 24 128 (view_float32 v) = true.
Proof.
  unfold view_float32.
  set (w := v mod 4294967296).
  assert (He : 0 <= Z.land (Z.shiftr w 23) 255 < 256).
  { change 255 with (Z.ones 8). rewrite Z.land_ones by lia.
    apply Z.mod_pos_bound. lia. }
  assert (Hm : 0 <= Z.land w 8388607 < 8388608).
  { change 8388607 with (Z.ones 23). rewrite Z.land_ones by lia.
    apply Z.mod_pos_bound. lia. }
  set (e := Z.land (Z.shiftr w 23) 255) in *.
  set (m := Z.land w 8388607) in *.
  destruct (Z.eqb_spec e 0) as [He0 | He0].
  - destruct m as [| p | p] eqn:Hp; try reflexivity.
    cbn [valid_binary]. unfold bounded, canonical_mantissa, fexp, emin.
    pose proof (digits2_pos_le p 23 ltac:(lia) ltac:(change (2 ^ 23) with 8388608; lia)).
    apply andb_true_iff. split.
    + apply Z.eqb_eq. lia.
    + apply Z.leb_le. lia.
  - destruct (Z.eqb_spec e 255) as [He255 | He255].
    + destruct (m =? 0); reflexivity.
    + destruct (m + 8388608) as [| p | p] eqn:Hp; try reflexivity.
      cbn [valid_binary]. unfold bounded, canonical_mantissa, fexp, emin.
      pose proof (digits2_pos_le p 24 ltac:(lia)
                    ltac:(change (2 ^ 24) with 16777216; lia)).
      pose proof (digits2_pos_gt p 23 ltac:(lia)
                    ltac:(change (2 ^ 23) with 8388608; lia)).
      apply andb_true_iff. split.
      * apply Z.eqb_eq. lia.
      * apply Z.leb_le. lia.
Qed.

(** X16. Every value that [getfloat] returns is a valid binary32:
    zero, an infinity, a NaN, or a finite number with a canonical
    mantissa of at most 24 bits and an exponent in range (so
    [float32_add] on header floats is the IEEE addition). *)
Theorem getfloat_valid (f : fileobj) (x : float32) (rest : fileobj) :
  getfloat f = Ok (x, rest) -> valid_binary 24 128 x = true.
Proof.
  unfold getfloat, bind.
  destruct (get32 f) as [[w f'] | e]; [| discriminate].
  unfold ret. intros H.
  assert (Hx : x = view_float32 (int32 w)) by congruence.
  rewrite Hx. apply view_float32_valid.
Qed.

Lemma getfloat_valid_witness :
  valid_binary 24 128 (S754_finite true 8388608 (-23)) = true.
Proof.
  refine (getfloat_valid (bytes [191; 128; 0; 0; 7])
            (S754_finite true 8388608 (-23)) (bytes [7]) _).
  reflexivity.
Defined.

(** ** [read_roi_zip] *)

Lemma read_entries_Ok zf names : forall entries,
  read_entries zf names = Ok entries <->
  map fst entries = names
  /\ forall n g, In (n, g) entries -> read_roi (zread zf n) = Ok g.
Proof.
  induction names as [| n names IH]; intros entries; cbn [read_entries].
  - split.
    + intros [= <-]. split; [reflexivity | intros ? ? []].
    + intros [Hnames _]. destruct entries; [reflexivity | discriminate].
  - destruct (read_roi (zread zf n)) as [g |e] eqn:Hn.
    + destruct (read_entries zf names) as [tail | e] eqn:Htail.
      * split.
        -- intros [= <-]. cbn [map fst]. split.
           ++ f_equal. apply (IH tail). reflexivity.
           ++ intros n' g' [[= <- <-] | Hin]; [exact Hn |].
              apply (proj1 (IH tail) eq_refl). exact Hin.
        -- intros [Hnames Hall].
           destruct entries as [| [n' g'] entries]; [discriminate |].
           cbn [map fst] in Hnames. injection Hnames as -> Hnames.
           assert (Hg : g' = g).
           { specialize (Hall n g' (or_introl eq_refl)). congruence. }
           assert (Htl : Ok tail = Ok entries).
           { apply (IH entries). split; [exact Hnames |].
             intros n' g'' Hin. apply Hall. right. exact Hin. }
           congruence.
      * split; [discriminate |].
        intros [Hnames Hall].
        destruct entries as [| [n' g'] entries]; [discriminate |].
        cbn [map fst] in Hnames. injection Hnames as -> Hnames.
        assert (Htl : Err e = Ok entries); [| discriminate].
        apply (IH entries). split; [exact Hnames |].
        intros n' g'' Hin. apply Hall. right. exact Hin.
    + split; [discriminate |].
      intros [Hnames Hall].
      destruct entries as [| [n' g'] entries]; [discriminate |].
      cbn [map fst] in Hnames. injection Hnames as -> Hnames.
      specialize (Hall n g' (or_introl eq_refl)). congruence.
Qed.

Lemma read_entries_first_failure zf done : forall n todo e,
  (forall m, In m done -> exists g, read_roi (zread zf m) = Ok g) ->
  read_roi (zread zf n) = Err e ->
  read_entries zf (done ++ n :: todo) = Err e.
Proof.
  induction done as [| m done IH]; intros n todo e Hdone Hn;
    cbn [app read_entries].
  - now rewrite Hn.
  - destruct (Hdone m (or_introl eq_refl)) as [g Hm]. rewrite Hm.
    rewrite (IH n todo e); [reflexivity | | exact Hn].
    intros m' Hin. apply Hdone. right. exact Hin.
Qed.

(** X17. [read_roi_zip] returns a list exactly when every member of
    the archive decodes; the list then pairs the names of the archive,
    in the order of [namelist()], each with the result of [read_roi] on
    the bytes of that member. *)
Theorem read_roi_zip_ok_iff (zf : ZipFile)
    (entries : list (string * geometry)) :
  read_roi_zip zf = Ok entries <->
  map fst entries = namelist zf
  /\ forall n g, In (n, g) entries -> read_roi (zread zf n) = Ok g.
Proof. apply read_entries_Ok. Qed.

(** X18. [read_roi_zip] stops at the first member that [read_roi]
    rejects and raises that member's exception, whatever the later
    members hold. *)
Theorem read_roi_zip_first_failure (zf : ZipFile)
    (done todo : list string) (n : string) (e : error) :
  namelist zf = done ++ n :: todo ->
  (forall m, In m done -> exists g, read_roi (zread zf m) = Ok g) ->
  read_roi (zread zf n) = Err e ->
  read_roi_zip zf = Err e.
Proof.
  intros Hnames Hdone Hn. unfold read_roi_zip. rewrite Hnames.
  now apply read_entries_first_failure.
Qed.

Lemma read_roi_zip_first_failure_witness :
  read_roi_zip sample_zip_oval = Err (UnsupportedRoiType 2).
Proof.
  refine (read_roi_zip_first_failure sample_zip_oval
            ["a.roi"%string] ["c.roi"%string] "b.roi"
            (UnsupportedRoiType 2) _ _ _).
  - reflexivity.
  - intros m [<- | []]. eexists. reflexivity.
  - reflexivity.
Defined.

(** ** The loop of the composite branch *)

(** Past [length buffer - i] iterations, more fuel changes nothing. *)
Lemma walk_fuel_irrelevant buffer fuel : forall fuel' i these_points segments,
  (length buffer - i <= fuel)%nat ->
  (length buffer - i <= fuel')%nat ->
  walk fuel buffer i these_points segments
  = walk fuel' buffer i these_points segments.
Proof.
  induction fuel as [| fuel IH]; intros fuel' i these_points segments Hf Hf'.
  - destruct fuel'; cbn [walk];
      destruct (Nat.ltb_spec i (length buffer)); (lia || reflexivity).
  - destruct fuel' as [| fuel']; cbn [walk];
      destruct (Nat.ltb_spec i (length buffer)); try lia; try reflexivity.
    destruct (rc_lookup (nth i buffer S754_nan)) as [read_len |] eqn:Hrc;
      [| reflexivity].
    apply rc_lookup_positive in Hrc.
    destruct (length _ =? 0)%nat; apply IH; lia.
Qed.

Lemma walk_points pts : forall fuel pre post these_points segments,
  Forall line_opcode pts ->
  walk (length pts + fuel) (pre ++ flat_map encode_point pts ++ post)
    (length pre) these_points segments
  = walk fuel (pre ++ flat_map encode_point pts ++ post)
      (length (pre ++ flat_map encode_point pts))
      (these_points ++ path_rows pts) segments.
Proof.
  induction pts as [| p pts IH]; intros fuel pre post these_points segments Hops.
  - cbn [flat_map app length path_rows map Nat.add].
    now rewrite !app_nil_r.
  - inversion Hops as [| ? ? Hp Hpts]; subst.
    cbn [flat_map length Nat.add].
    rewrite <- !app_assoc. rewrite (walk_point _ pre p) by exact Hp.
    specialize (IH fuel (pre ++ encode_point p) post
                  (these_points ++ path_rows [p]) segments Hpts).
    rewrite <- !app_assoc in IH.
    replace (length (pre ++ encode_point p)) with (length pre + 3)%nat in IH
      by (rewrite length_app; destruct p as [[? ?] ?]; reflexivity).
    rewrite IH. reflexivity.
Qed.

Lemma walk_paths_then paths : forall fuel pre post segments,
  Forall (Forall line_opcode) paths ->
  walk (path_steps paths + fuel) (pre ++ flat_map encode_path paths ++ post)
    (length pre) [] segments
  = walk fuel (pre ++ flat_map encode_path paths ++ post)
      (length (pre ++ flat_map encode_path paths))
      [] (segments ++ map path_rows paths).
Proof.
  induction paths as [| pts paths IH]; intros fuel pre post segments Hops.
  - cbn [flat_map map path_steps fold_right app Nat.add].
    now rewrite !app_nil_r.
  - inversion Hops as [| ? ? Hpts Hpaths]; subst.
    cbn [flat_map map path_steps fold_right].
    fold (path_steps paths).
    replace (length pts + 1 + path_steps paths + fuel)%nat
      with (length pts + 1 + (path_steps paths + fuel))%nat by lia.
    rewrite <- !app_assoc.
    rewrite walk_path by exact Hpts.
    specialize (IH fuel (pre ++ encode_path pts) post
                  (segments ++ [path_rows pts]) Hpaths).
    rewrite <- !app_assoc in IH. cbn [app].
    refine (eq_trans IH _). rewrite <- ?app_assoc. reflexivity.
Qed.

(** The loop on a buffer that starts with closed straight-line paths
    followed by the points of an open one: the state in which it
    reaches what follows. *)
Lemma walk_prefix paths pts post fuel :
  Forall (Forall line_opcode) paths -> Forall line_opcode pts ->
  (length (flat_map encode_path paths ++ flat_map encode_point pts ++ post)
   <= fuel)%nat ->
  walk fuel (flat_map encode_path paths ++ flat_map encode_point pts ++ post)
    0 [] []
  = walk fuel (flat_map encode_path paths ++ flat_map encode_point pts ++ post)
      (length (flat_map encode_path paths ++ flat_map encode_point pts))
      (path_rows pts) (map path_rows paths).
Proof.
  intros Hpaths Hpts Hfuel.
  set (buffer := flat_map encode_path paths ++ flat_map encode_point pts ++ post)
    in *.
  rewrite (walk_fuel_irrelevant buffer fuel
             (path_steps paths + (length pts + fuel))) by lia.
  pose proof (walk_paths_then paths (length pts + fuel) []
                (flat_map encode_point pts ++ post) [] Hpaths) as H1.
  cbn [app length] in H1. fold buffer in H1. rewrite H1.
  pose proof (walk_points pts fuel (flat_map encode_path paths) post
                [] (map path_rows paths) Hpts) as H2.
  fold buffer in H2. rewrite H2. cbn [app].
  rewrite !length_app. reflexivity.
Qed.

Lemma walk_past_end fuel buffer i these_points segments :
  (length buffer <= i)%nat ->
  walk fuel buffer i these_points segments = Some (Ok segments).
Proof.
  intros Hi. destruct fuel; cbn [walk];
    destruct (Nat.ltb_spec i (length buffer)); (lia || reflexivity).
Qed.


Lemma walk_bare fuel pre t read_len these_points segments :
  rc_lookup t = Some read_len ->
  walk (S fuel) (pre ++ [t]) (length pre) these_points segments
  = Some (Ok (segments ++ [these_points])).
Proof.
  intros Hrc. cbn [walk]. rewrite length_app. cbn [length].
  destruct (Nat.ltb_spec (length pre) (length pre + 1)); [| lia].
  rewrite nth_middle, Hrc. unfold slice. rewrite skipn_past_middle.
  rewrite firstn_nil. cbn [length Nat.eqb].
  apply rc_lookup_positive in Hrc.
  apply walk_past_end. rewrite length_app. cbn [length]. lia.
Qed.


(** X19. The loop of the composite branch (lines 119-145), given the
    floats of closed straight-line paths, returns one array per path, in
    order, whose rows are the points of the path with [x, y] reversed to
    [y, x]; points that follow the last closing opcode are dropped. *)
Theorem composite_loop_line_paths (paths : list (list path_point))
    (pts : list path_point) (f : fileobj) :
  Forall (Forall line_opcode) paths ->
  Forall line_opcode pts ->
  composite_segments (flat_map encode_path paths ++ flat_map encode_point pts) f
  = Ok (map path_rows paths, f).
Proof.
  intros Hpaths Hpts. unfold composite_segments.
  pose proof (walk_prefix paths pts []
                (length (flat_map encode_path paths
                         ++ flat_map encode_point pts)) Hpaths Hpts) as H.
  rewrite !app_nil_r in H. rewrite H by apply le_n.
  now rewrite walk_end.
Qed.

Lemma composite_loop_line_paths_witness :
  composite_segments
    (flat_map encode_path
       [[(0, float32_of_Z 1, float32_of_Z 2);
         (1, float32_of_Z 3, float32_of_Z 4)]]
     ++ flat_map encode_point [(0, float32_of_Z 5, float32_of_Z 6)]) []
  = Ok (map path_rows
          [[(0, float32_of_Z 1, float32_of_Z 2);
            (1, float32_of_Z 3, float32_of_Z 4)]], []).
Proof.
  refine (composite_loop_line_paths _ _ [] _ _).
  - repeat first [apply Forall_nil | apply Forall_cons
                   | left; reflexivity | right; reflexivity].
  - repeat first [apply Forall_nil | apply Forall_cons
                   | left; reflexivity | right; reflexivity].
Defined.



(** X21. An opcode of [rc] that is the last float of the buffer, with no
    coordinate after it, closes the current path like the opcode 4
    does, whichever opcode it is. *)
Theorem composite_loop_bare_opcode (paths : list (list path_point))
    (pts : list path_point) (t : float32) (read_len : nat) (f : fileobj) :
  Forall (Forall line_opcode) paths ->
  Forall line_opcode pts ->
  rc_lookup t = Some read_len ->
  composite_segments
    (flat_map encode_path paths ++ flat_map encode_point pts ++ [t]) f
  = Ok (map path_rows paths ++ [path_rows pts], f).
Proof.
  intros Hpaths Hpts Hrc. unfold composite_segments.
  rewrite (walk_prefix paths pts [t]) by (assumption || apply le_n).
  rewrite app_assoc.
  destruct (length _) as [| fuel] eqn:Hlen at 1.
  - rewrite length_app in Hlen. cbn [length] in Hlen. lia.
  - now rewrite (walk_bare _ _ _ read_len).
Qed.

Lemma composite_loop_bare_opcode_witness :
  composite_segments
    (flat_map encode_path []
     ++ flat_map encode_point [(0, float32_of_Z 1, float32_of_Z 2)]
     ++ [float32_of_Z 1]) []
  = Ok (map path_rows [] ++ [path_rows [(0, float32_of_Z 1, float32_of_Z 2)]],
        []).
Proof.
  refine (composite_loop_bare_opcode _ _ _ 3 [] _ _ _).
  - repeat first [apply Forall_nil | apply Forall_cons
                   | left; reflexivity | right; reflexivity].
  - repeat first [apply Forall_nil | apply Forall_cons
                   | left; reflexivity | right; reflexivity].
  - reflexivity.
Defined.


(** ** The header, once more *)

(** X23. On a record that starts with the magic number and holds 64
    bytes, the header section reads every field from its offset in the
    format's table (version at 4, type at 6, bounds at 8-15, count at
    16, floats at 18-33, stroke width at 34, composite size at 36,
    colours at 40 and 44, subtype at 48, options at 50, arrow style and
    size at 52 and 53, arc size at 54, position at 56, second-header
    offset at 60), big-endian, and leaves the file object at byte 64. *)
Theorem header_layout (d : list byte) :
  full_header d -> read_header d = Ok (header_at d, skipn 64 d).
Proof.
  intros [Hmagic Hlen]. rewrite read_header_eq.
  rewrite (proj2 (bytes_eqb_eq _ _) Hmagic).
  destruct (Nat.ltb_spec (length d) 64); [lia | reflexivity].
Qed.

Lemma header_layout_witness :
  read_header sample_rect_subpixel
  = Ok ({| version := 227; roi_type := 1;
           top := 10; left := 20; bottom := 30; right := 40;
           n_coordinates := 0;
           x1 := S754_finite false 8388608 (-23);
           y1 := S754_finite false 8388608 (-22);
           x2 := S754_finite false 12582912 (-23);
           y2 := S754_finite true 8388608 (-23);
           stroke_width := 0; shape_roi_size := 0;
           stroke_color := 0; fill_color := 0; subtype := 0;
           options := 128; arrow_style := 0; arrow_head_size := 0;
           rect_arc_size := 0; position := 0; header2offset := 0 |}, []).
Proof.
  refine (header_layout sample_rect_subpixel _).
  split; [reflexivity | simpl; lia].
Defined.

(** X24. The version and the options act on the result only through
    the sub-pixel decision: two inputs of the same length that agree
    outside the version (offsets 4-5), the options (50-51) and the
    unused offsets, and for which [subPixelResolution] is the same,
    yield the same points or the same exception. *)
Theorem version_and_options_only_gate (d1 d2 : list byte) :
  length d1 = length d2 ->
  (forall k, ~ (unused_offset k \/ k = 4 \/ k = 5 \/ k = 51)%nat ->
             nth k d1 x00 = nth k d2 x00) ->
  subPixelResolution (header_at d1) = subPixelResolution (header_at d2) ->
  read_roi d1 = read_roi d2.
Proof.
  intros Hlen Hsame Hsub.
  assert (Hb : forall k, ~ (unused_offset k \/ k = 4 \/ k = 5 \/ k = 51)%nat ->
                         byte_at d1 k = byte_at d2 k).
  { intros k Hk. unfold byte_at. now rewrite Hsame. }
  assert (Hmagic : firstn 4 d1 = firstn 4 d2).
  { apply firstn_nth_ext; [exact Hlen |].
    intros k Hk. apply Hsame. unfold unused_offset. lia. }
  assert (Hrest : skipn 64 d1 = skipn 64 d2).
  { apply skipn_nth_ext; [exact Hlen |].
    intros k Hk. apply Hsame. unfold unused_offset. lia. }
  rewrite !read_roi_eq, Hmagic, Hrest, Hlen.
  destruct (bytes_eqb (firstn 4 d2) Iout); [| reflexivity].
  destruct (length d2 <? 64)%nat; [reflexivity |].
  f_equal.
  apply read_shape_used_fields; try exact Hsub;
    cbn [header_at roi_type subtype shape_roi_size top left bottom
           right n_coordinates x1 y1 x2 y2];
    unfold f32_at, u32_at, u16_at;
    rewrite ?Nat.add_0_r;
    repeat (rewrite Hb by (unfold unused_offset; simpl; lia));
    reflexivity.
Qed.

Lemma version_and_options_only_gate_witness :
  read_roi (sample_old_polygon 128) = read_roi sample_polygon.
Proof.
  refine (version_and_options_only_gate
            (sample_old_polygon 128) sample_polygon _ _ _).
  - reflexivity.
  - intros k Hk.
    do 72 (destruct k as [| k];
           [first [reflexivity
                  | exfalso; apply Hk; unfold unused_offset; lia] |]).
    destruct k; reflexivity.
  - reflexivity.
Defined.
